(** * Wordle word dataset: the data-collection notebook

    A shallow embedding of [data-collection.ipynb]: the extraction of the two
    word arrays from [wordle.js], the Ngram client ([fetch], [getNgramUsage]),
    the resumable writer of [wordle.tsv] and the assembly of [wordle.csv].

    Modelling conventions.
    - Text is a [string] of code points below 256; Python's [str] comparison
      and [String.compare] agree on such strings.
    - A binary64 value is [NaN] or a rational ([Fin q]): rounding, infinities
      and signed zeros are not modelled.
    - [wordle.tsv] is the list of its records after the header line, one
      [(word, field)] pair per line written by the notebook. Reading the
      word column back goes through [Pandas]: missing-value tokens, and the
      conversion of a column of numbers or of booleans, the type of a column
      being inferred over the whole column, as the parser does for a file it
      reads in one chunk. Words that hold tabs, quotes or line breaks (the
      extractor returns none) are not modelled.
    - [wordle.csv] is the list of its rows, each cell with the type pandas
      holds it in; the digits [to_csv] prints for a float are not
      modelled. *)

From Stdlib Require Import List String Ascii Bool Arith Lia QArith.
From Stdlib Require Import Permutation Sorted NArith.
Import ListNotations.

Close Scope Q_scope.
Open Scope string_scope.
Open Scope list_scope.
Open Scope nat_scope.

(** ** Python values shared by the cells *)

(** A [numpy.float64]. *)
Inductive np_float : Type :=
| NaN
| Fin (q : Q).

(** What [getNgramUsage] returns: [emptyValue] (the empty string) or the mean. *)
Inductive usage : Type :=
| EmptyValue
| Occurrence (x : np_float).

(** The value [res.json()] returns. A [dict] is the list of its items. *)
#[local] Set Warnings "-register-all".
Inductive json : Type :=
| JNull
| JBool (b : bool)
| JNum (q : Q)
| JStr (s : string)
| JArr (items : list json)
| JObj (members : list (string * json)).

(** The [try: ... except: ...] block: [None] is a raised exception. *)
Definition bind {A B : Type} (x : option A) (k : A -> option B) : option B :=
  match x with
  | Some a => k a
  | None => None
  end.

Notation "x <- e ;; k" := (bind e (fun x => k))
  (at level 61, e at next level, right associativity).

(** ** Cell 3: the array extractor *)

Module Extractor.

(** Python's [\s] on a [str] pattern, for code points below 256. *)
Definition is_space (c : ascii) : bool :=
  let n := nat_of_ascii c in
  ((9 <=? n) && (n <=? 13)) || ((28 <=? n) && (n <=? 32))
  || (n =? 133) || (n =? 160).

Definition is_quote (c : ascii) : bool := (nat_of_ascii c =? 34).

(** [s[:-1]] *)
Fixpoint drop_last (s : string) : string :=
  match s with
  | EmptyString => EmptyString
  | String c EmptyString => EmptyString
  | String c s' => String c (drop_last s')
  end.

(** [arr[1:-1]] *)
Definition slice_1_m1 (arr : string) : string :=
  match arr with
  | EmptyString => EmptyString
  | String _ s' => drop_last s'
  end.

(** [s[n:]] *)
Fixpoint slice_from (n : nat) (s : string) : string :=
  match n, s with
  | O, _ => s
  | S _, EmptyString => EmptyString
  | S n', String _ s' => slice_from n' s'
  end.

(** [re.sub(pattern, '', s)] for the pattern of cell 3: every double quote
    and every whitespace character is removed. *)
Fixpoint re_sub (s : string) : string :=
  match s with
  | EmptyString => EmptyString
  | String c s' =>
      if is_quote c || is_space c then re_sub s' else String c (re_sub s')
  end.

(** [s.split(sep)] for a separator of one character. *)
Fixpoint split (sep : ascii) (s : string) : list string :=
  match s with
  | EmptyString => [EmptyString]
  | String c s' =>
      if Ascii.eqb c sep then EmptyString :: split sep s'
      else match split sep s' with
           | h :: t => String c h :: t
           | [] => [String c EmptyString]
           end
  end.

Definition comma : ascii := ascii_of_nat 44.
Definition newline : ascii := ascii_of_nat 10.

Definition array2List (arr : string) : list string :=
  split comma (re_sub (slice_1_m1 arr)).

Definition answers_line : nat := 1117.
Definition wordlist_line : nat := 1118.
Definition literal_offset : nat := 13.

(** The outcome of the cell: the two lists, or the [IndexError] of [txt[i]]. *)
Inductive extraction : Type :=
| IndexError
| Extracted (answers wordlist : list string).

Definition extract (text : string) : extraction :=
  let txt := split newline text in
  match nth_error txt answers_line with
  | None => IndexError
  | Some la =>
      let answers := array2List (slice_from literal_offset la) in
      match nth_error txt wordlist_line with
      | None => IndexError
      | Some lw =>
          Extracted answers (array2List (slice_from literal_offset lw))
      end
  end.

(** A line that holds an array literal at the known offset: after the first
    thirteen characters it opens with a bracket and closes with one. *)
Definition last_char (s : string) : option ascii :=
  match rev (list_ascii_of_string s) with
  | c :: _ => Some c
  | [] => None
  end.

Definition holds_literal (line : string) : bool :=
  match slice_from literal_offset line with
  | String c rest =>
      (nat_of_ascii c =? 91)
      && match last_char rest with
         | Some d => nat_of_ascii d =? 93
         | None => false
         end
  | EmptyString => false
  end.

(** Both literals are present and well formed in the text. *)
Definition literals_present (text : string) : bool :=
  let txt := split newline text in
  match nth_error txt answers_line, nth_error txt wordlist_line with
  | Some la, Some lw => holds_literal la && holds_literal lw
  | _, _ => false
  end.

(** A text of [n] line breaks and nothing else. *)
Fixpoint blank_lines (n : nat) : string :=
  match n with
  | O => EmptyString
  | S n' => String newline (blank_lines n')
  end.

(** A word between double quotes, and a source line that assigns the array
    literal of the words to a variable: thirteen characters, then the
    literal. *)
Definition quoted (w : string) : string :=
  String (ascii_of_nat 34) (String.append w (String (ascii_of_nat 34) EmptyString)).

Definition literal_line (ws : list string) : string :=
  String.append "    var La = "
    (String.append "[" (String.append (String.concat ", " (map quoted ws)) "]")).

(** The array literal of the words, as the source writes it. *)
Definition array_literal (ws : list string) : string :=
  String.append "[" (String.append (String.concat ", " (map quoted ws)) "]").

(** Every character of the string passes the test. *)
Fixpoint all_chars (test : ascii -> bool) (s : string) : bool :=
  match s with
  | EmptyString => true
  | String c s' => test c && all_chars test s'
  end.

(** A character that is no double quote, no whitespace and no comma, and a
    word made of such characters. *)
Definition clean_char (c : ascii) : bool :=
  negb (is_quote c || is_space c) && negb (Ascii.eqb c comma).

Definition clean (w : string) : bool := all_chars clean_char w.

(** How often [c] occurs in [s]. *)
Fixpoint count_char (c : ascii) (s : string) : nat :=
  match s with
  | EmptyString => 0
  | String d s' => (if Ascii.eqb d c then 1 else 0) + count_char c s'
  end.

(** A source text with the two literals on the lines the cell reads. *)
Definition sample_text : string :=
  String.append (blank_lines answers_line)
    (String.append (literal_line ["cigar"; "rebut"; "sissy"])
       (String newline (literal_line ["aahed"; "aalii"]))).

End Extractor.

(** ** Cell 7: the frequency client *)

Module Client.

Record response : Type := {
  status_code : nat;
  (** [res.json()]; [None] when decoding the body raises. *)
  json_body : option json
}.

(** What one call of [requests.get] does: a response, or a raised exception
    (connection failure, timeout of the transport, ...). *)
Inductive outcome : Type :=
| Response (res : response)
| RequestException.

Record params : Type := {
  content : string;
  year_start : nat;
  year_end : nat;
  corpus : nat;
  smoothing : nat
}.

Inductive event : Type :=
| Get (url : string) (p : params)
| Sleep (seconds : nat).

(** A call that returned, raised, or is still inside its loop when the fuel
    (a bound on loop iterations) ran out. *)
Inductive result (A : Type) : Type :=
| Returned (a : A) (trace : list event)
| Raised (trace : list event)
| Looping.

Arguments Returned {A} a trace.
Arguments Raised {A} trace.
Arguments Looping {A}.

Definition tooManyReqsCode : nat := 429.

Definition url : string := "https://books.google.com/ngrams/json".

Definition args (ngram : string) : params :=
  {| content := ngram; year_start := 1970; year_end := 2019;
     corpus := 26; smoothing := 0 |}.

(** The arithmetic mean [sum(ts) / len(ts)], exact in the rationals, and
    [nan] for the empty array. [numpy.mean] computes the mean in binary64
    and rounds; what it returns is the parameter [np_mean] below. *)
Definition mean (ts : list Q) : np_float :=
  match ts with
  | [] => NaN
  | _ => Fin (fold_right Qplus 0%Q ts / inject_Z (Z.of_nat (List.length ts)))%Q
  end.

(** [j[0]] *)
Definition subscript_0 (j : json) : option json :=
  match j with
  | JArr (x :: _) => Some x
  | JStr (String c _) => Some (JStr (String c EmptyString))
  | _ => None
  end.

Fixpoint dict_get (k : string) (members : list (string * json)) : option json :=
  match members with
  | [] => None
  | (k', v) :: rest => if String.eqb k k' then Some v else dict_get k rest
  end.

(** [j[k]] for a string key. *)
Definition subscript_key (k : string) (j : json) : option json :=
  match j with
  | JObj members => dict_get k members
  | _ => None
  end.

Section Calls.

(** The network: the outcome of the [n]-th call of [requests.get] with the
    given arguments, counting from 0 within one lookup. *)
Variable requests_get : string -> params -> nat -> outcome.

(** [numpy.mean] on a decoded value; [None] when it raises. *)
Variable np_mean : json -> option np_float.

(** The [while] loop of [fetch]: [n] calls were made, [res] is the last
    response. *)
Fixpoint while_429 (u : string) (p : params) (wait : nat) (fuel n : nat)
  (res : response) (trace : list event) : result response :=
  if status_code res =? tooManyReqsCode then
    match fuel with
    | O => Looping
    | S fuel' =>
        match requests_get u p n with
        | Response res' =>
            while_429 u p wait fuel' (S n) res' (trace ++ [Sleep wait; Get u p])
        | RequestException => Raised (trace ++ [Sleep wait; Get u p])
        end
    end
  else Returned res trace.

Definition fetch (u : string) (p : params) (wait : nat) (fuel : nat)
  : result response :=
  match requests_get u p 0 with
  | Response res =>
      if status_code res =? tooManyReqsCode
      then while_429 u p wait fuel 1 res [Get u p]
      else Returned res [Get u p]
  | RequestException => Raised [Get u p]
  end.

(** The body of the [try]: [np.mean(res.json()[0]['timeseries'])]. *)
Definition try_mean (res : response) : option np_float :=
  j <- json_body res ;;
  first <- subscript_0 j ;;
  ts <- subscript_key "timeseries" first ;;
  np_mean ts.

Definition emptyValue : usage := EmptyValue.

Definition handle (res : response) : usage :=
  match try_mean res with
  | Some occurrence => Occurrence occurrence
  | None => emptyValue
  end.

Definition getNgramUsage (ngram : string) (fuel : nat) : result usage :=
  match fetch url (args ngram) 1 fuel with
  | Returned res trace => Returned (handle res) trace
  | Raised trace => Raised trace
  | Looping => Looping
  end.

End Calls.

(** An instance of the parameter [np_mean] for the examples: the exact mean
    of a list of numbers, no value for anything else. It stands for
    [numpy.mean] on the sample network alone, where the arrays hold one
    number. *)
Fixpoint numbers (items : list json) : option (list Q) :=
  match items with
  | [] => Some []
  | JNum q :: rest => qs <- numbers rest ;; Some (q :: qs)
  | _ :: _ => None
  end.

Definition np_mean_numbers (j : json) : option np_float :=
  match j with
  | JArr items => qs <- numbers items ;; Some (mean qs)
  | _ => None
  end.

(** The time-series array of a decoded body, when it has one. *)
Definition timeseries (j : json) : option json :=
  first <- subscript_0 j ;; subscript_key "timeseries" first.


(** What [fetch] does after its first call when it retries [k] times: a
    sleep of [wait] seconds before each further call. *)
Definition retries (u : string) (p : params) (wait k : nat) : list event :=
  List.concat (repeat [Sleep wait; Get u p] k).

(** The first [k] calls of [requests.get] all got a rate-limit response. *)
Definition rate_limited_before
  (requests_get : string -> params -> nat -> outcome)
  (u : string) (p : params) (k : nat) : Prop :=
  forall i, i < k ->
    exists r, requests_get u p i = Response r /\
              status_code r = tooManyReqsCode.

(** Call [k] is the first to get a response that is no rate limit. *)
Definition first_answer
  (requests_get : string -> params -> nat -> outcome)
  (u : string) (p : params) (k : nat) (res : response) : Prop :=
  rate_limited_before requests_get u p k /\
  requests_get u p k = Response res /\
  status_code res <> tooManyReqsCode.

(** Call [k] raises, after rate-limit responses only. *)
Definition first_failure
  (requests_get : string -> params -> nat -> outcome)
  (u : string) (p : params) (k : nat) : Prop :=
  rate_limited_before requests_get u p k /\
  requests_get u p k = RequestException.

(** A network on which [requests.get] raises at once. *)
Definition unreachable_host (u : string) (p : params) (n : nat) : outcome :=
  RequestException.

End Client.

(** ** What [pandas.read_csv] makes of a column of words *)

Module Pandas.

(** The fields [read_csv] reads as a missing value when [na_values] and
    [keep_default_na] are left at their defaults, as its documentation
    lists them ([None] is among them from pandas 2 on). *)
Definition na_values : list string :=
  [EmptyString; "#N/A"; "#N/A N/A"; "#NA"; "-1.#IND"; "-1.#QNAN"; "-NaN";
   "-nan"; "1.#IND"; "1.#QNAN"; "<NA>"; "N/A"; "NA"; "NULL"; "NaN"; "None";
   "n/a"; "nan"; "null"].

Definition is_na (s : string) : bool := existsb (String.eqb s) na_values.

(** The fields read as booleans when every field of a column is one. *)
Definition true_values : list string := ["True"; "TRUE"; "true"].
Definition false_values : list string := ["False"; "FALSE"; "false"].

Definition is_bool (s : string) : bool :=
  existsb (String.eqb s) (true_values ++ false_values).

Definition is_digit (c : ascii) : bool :=
  let n := nat_of_ascii c in (48 <=? n) && (n <=? 57).

Definition to_lower (c : ascii) : ascii :=
  let n := nat_of_ascii c in
  if (65 <=? n) && (n <=? 90) then ascii_of_nat (n + 32) else c.

Fixpoint lower (s : string) : string :=
  match s with
  | EmptyString => EmptyString
  | String c s' => String (to_lower c) (lower s')
  end.

Definition strip_sign (s : string) : string :=
  match s with
  | String c s' =>
      if (nat_of_ascii c =? 43) || (nat_of_ascii c =? 45) then s' else s
  | EmptyString => s
  end.

(** The number of leading digits, and what follows them. *)
Fixpoint skip_digits (s : string) : nat * string :=
  match s with
  | String c s' =>
      if is_digit c
      then let (n, rest) := skip_digits s' in (S n, rest)
      else (0, s)
  | EmptyString => (0, s)
  end.

(** Digits with an optional fraction and an optional exponent. *)
Definition is_decimal (s : string) : bool :=
  let (n1, r1) := skip_digits s in
  let (n2, r2) :=
    match r1 with
    | String c r => if nat_of_ascii c =? 46 then skip_digits r else (0, r1)
    | EmptyString => (0, r1)
    end in
  (0 <? n1 + n2)
  && match r2 with
     | EmptyString => true
     | String c r =>
         ((nat_of_ascii c =? 101) || (nat_of_ascii c =? 69))
         && let (n3, r3) := skip_digits (strip_sign r) in
            (0 <? n3) && String.eqb r3 EmptyString
     end.

Definition is_inf (s : string) : bool :=
  String.eqb (lower s) "inf" || String.eqb (lower s) "infinity".

(** The fields without blanks that [read_csv] converts to a number: a
    signed decimal, or infinity in either spelling and any case. *)
Definition is_number (s : string) : bool :=
  is_decimal (strip_sign s) || is_inf (strip_sign s).

(** A value of the word column after reading. *)
Inductive cell : Type :=
| Text (s : string)
| NoValue
| Number (field : string)
| Boolean (b : bool).

(** A field read with [dtype=str]: missing, or the string as written. *)
Definition read_text (s : string) : cell :=
  if is_na s then NoValue else Text s.

(** A column read without a [dtype]: numbers when every field that is not
    missing is a number, booleans when every such field is one, strings
    otherwise. *)
Definition read_column (fields : list string) : list cell :=
  let present := filter (fun s => negb (is_na s)) fields in
  if forallb is_number present then
    map (fun s => if is_na s then NoValue else Number s) fields
  else if forallb is_bool present then
    map (fun s => if is_na s then NoValue
                  else Boolean (existsb (String.eqb s) true_values)) fields
  else map read_text fields.

(** [word == c] in Python: only an equal string is equal to a string. *)
Definition cell_is (word : string) (c : cell) : bool :=
  match c with
  | Text s => String.eqb word s
  | _ => false
  end.

(** A token of lowercase letters. *)
Definition is_lower (c : ascii) : bool :=
  let n := nat_of_ascii c in (97 <=? n) && (n <=? 122).

Definition lowercase (w : string) : bool :=
  match w with
  | EmptyString => false
  | String _ _ => Extractor.all_chars is_lower w
  end.

(** A lowercase word that is no missing-value token. *)
Definition word_ok (w : string) : bool := lowercase w && negb (is_na w).

(** A lowercase word that is read as a string whatever else its column
    holds: no missing-value token, number or boolean. *)
Definition textual (w : string) : bool :=
  word_ok w && negb (is_number w) && negb (is_bool w).

(** A column that is read back as written: lowercase words, none of them a
    missing-value token, one of them (if there is any) textual. *)
Definition legible (col : list string) : bool :=
  forallb word_ok col
  && match col with
     | [] => true
     | _ :: _ => existsb textual col
     end.

(** A universe whose record files are read back as written: its first word
    is textual and no other word is a missing-value token. *)
Definition legible_universe (words : list string) : bool :=
  match words with
  | [] => true
  | w :: rest => textual w && forallb word_ok rest
  end.

End Pandas.

(** ** Cell 15: the resumable cache writer *)

Module Cache.

(** One line of [wordle.tsv] after the header: the word and the formatted
    return value of [getNgramUsage]. *)
Definition record : Type := (string * usage)%type.

Definition file : Type := list record.

(** [None]: [wordle.tsv] does not exist. *)
Definition store : Type := option file.

(** [if not Path(fn).is_file(): ...] writes the header alone. *)
Definition create_if_absent (st : store) : file :=
  match st with
  | Some f => f
  | None => []
  end.

(** The word column of the file, as written. *)
Definition word_column (f : file) : list string := map fst f.

(** [list(pd.read_csv(fn, delimiter='\t').word)] *)
Definition queriedWords (f : file) : list Pandas.cell :=
  Pandas.read_column (word_column f).

(** [w in l] *)
Definition mem (w : string) (l : list string) : bool :=
  existsb (String.eqb w) l.

(** [lambda word : word not in queriedWords] *)
Definition isQueried (queried : list Pandas.cell) (word : string) : bool :=
  negb (existsb (Pandas.cell_is word) queried).

Definition wordsToQuery (words : list string) (f : file) : list string :=
  filter (isQueried (queriedWords f)) words.

(** What a run of the cell leaves: the file, the words [getNgramUsage] was
    called on (in call order), and whether the loop reached its end. *)
Record run : Type := {
  written : file;
  queried : list string;
  complete : bool
}.

Section Writer.

(** [getNgramUsage word] during this run: [None] when the call raises. *)
Variable lookup : string -> option usage.

(** The [for] loop inside [with open(fn, 'a')]: leaving the block, by an
    exception too, closes the file with every row written so far. *)
Fixpoint append_loop (todo : list string) (f : file) (calls : list string)
  : run :=
  match todo with
  | [] => {| written := f; queried := calls; complete := true |}
  | w :: rest =>
      match lookup w with
      | Some occurrence =>
          append_loop rest (f ++ [(w, occurrence)]) (calls ++ [w])
      | None =>
          {| written := f; queried := calls ++ [w]; complete := false |}
      end
  end.

Definition cache_step (wordlist answers : list string) (st : store) : run :=
  let f := create_if_absent st in
  let words := wordlist ++ answers in
  append_loop (wordsToQuery words f) f [].

(** The file left by a run that is stopped from outside after [k] passes of
    the loop (or ends, if the loop has fewer). *)
Definition interrupted (k : nat) (wordlist answers : list string)
  (st : store) : file :=
  let f := create_if_absent st in
  let words := wordlist ++ answers in
  written (append_loop (firstn k (wordsToQuery words f)) f []).

End Writer.

(** A lookup that returns for every word. *)
Definition total (lookup : string -> usage) : string -> option usage :=
  fun w => Some (lookup w).

(** The records a run appends for the words it goes through. *)
Definition records_of (lookup : string -> usage) (ws : list string) : file :=
  map (fun w => (w, lookup w)) ws.

(** The states of [wordle.tsv] that runs of the cell can leave behind: no
    file, or the file of a run stopped after any number of appends, started
    from such a state. *)
Inductive reachable (lookup : string -> usage)
  (wordlist answers : list string) : store -> Prop :=
| reach_absent : reachable lookup wordlist answers None
| reach_interrupted (st : store) (k : nat) :
    reachable lookup wordlist answers st ->
    reachable lookup wordlist answers
      (Some (interrupted (total lookup) k wordlist answers st)).


(** The lookup the notebook makes with the client of cell 7. *)
Definition client_lookup
  (requests_get : string -> Client.params -> nat -> Client.outcome)
  (np_mean : json -> option np_float) (fuel : nat) (w : string)
  : option usage :=
  match Client.getNgramUsage requests_get np_mean w fuel with
  | Client.Returned occurrence _ => Some occurrence
  | Client.Raised _ => None
  | Client.Looping => None
  end.

End Cache.

(** ** Cell 5: the overlap test *)

Module Overlap.

(** [set(l)]: the distinct elements of [l]. *)
Definition set_of (l : list string) : list string := nodup string_dec l.

(** [a.intersection(b)] on sets. *)
Definition intersection (a b : list string) : list string :=
  filter (fun w => Cache.mem w b) a.

(** [len(set(wordlist).intersection(set(answers)))] *)
Definition overlap (wordlist answers : list string) : nat :=
  List.length (intersection (set_of wordlist) (set_of answers)).

End Overlap.

(** ** Cells 16 to 28: the occurrence column *)

(** The frame with each row keyed by the word of its record as written: the
    view in which the occurrence column is followed from the record file to
    the export. What pandas makes of the word itself is in [Dataset]. *)
Module Assembler.

Import Cache.

(** A row keyed by the word of its record; [day] is the position, whatever
    type pandas holds it in. *)
Record row : Type := {
  word : string;
  occurrence : np_float;
  day : option nat
}.

(** A field of the [occurrence] column read as [np.float64]: the empty field
    is [nan]. *)
Definition read_field (u : usage) : np_float :=
  match u with
  | EmptyValue => NaN
  | Occurrence x => x
  end.

(** [pd.read_csv(fn, delimiter=tab, dtype=...)] on the occurrence column,
    each value beside the word of its record as written. *)
Definition read_csv (f : file) : list (string * np_float) :=
  map (fun r => (fst r, read_field (snd r))) f.

(** [replace(np.nan, 0)] on one value. *)
Definition replace_nan (x : np_float) : np_float :=
  match x with
  | NaN => Fin 0
  | Fin q => Fin q
  end.

(** [answers.index(w)]; [None] is the [ValueError] of an absent word. *)
Fixpoint index (w : string) (answers : list string) : option nat :=
  match answers with
  | [] => None
  | a :: rest =>
      if String.eqb a w then Some 0 else option_map S (index w rest)
  end.

(** [lambda w: answers.index(w) if w in answers else None] *)
Definition day_of (answers : list string) (w : string) : option nat :=
  if mem w answers then index w answers else None.

(** The frame after cell 24, in file order, in this view. *)
Definition frame (answers : list string) (f : file) : list row :=
  map (fun d => {| word := fst d;
                   occurrence := replace_nan (snd d);
                   day := day_of answers (fst d) |})
      (read_csv f).

Fixpoint insert (r : row) (sorted : list row) : list row :=
  match sorted with
  | [] => [r]
  | x :: rest =>
      if String.leb (word r) (word x) then r :: sorted
      else x :: insert r rest
  end.

(** The rows in ascending order of the recorded words: a reordering of
    the rows, which is all that matters for the occurrence column. The order
    of [sort_values('word')] itself is in [Dataset]. *)
Fixpoint sort_values (rows : list row) : list row :=
  match rows with
  | [] => []
  | r :: rest => insert r (sort_values rest)
  end.

(** The rows of [wordle.csv] in this view: the same occurrences, up to the
    order of the rows. *)
Definition assemble (answers : list string) (f : file) : list row :=
  sort_values (frame answers f).

(** [x.isnull()] on one value of the occurrence column. *)
Definition isnull (x : np_float) : bool :=
  match x with
  | NaN => true
  | Fin _ => false
  end.

(** [sum(col.isnull())]: how many values of the column are null. *)
Definition null_count (col : list np_float) : nat :=
  List.length (filter isnull col).

End Assembler.

(** ** Cells 16 to 28 with the word column as pandas reads it *)

Module Dataset.

Import Cache.

(** A value of the day column: null, or a position held as an integer
    ([to_csv] prints [3]) or as a float ([to_csv] prints [3.0]). *)
Inductive day_cell : Type :=
| NullDay
| IntDay (n : nat)
| FloatDay (n : nat).


(** A row of the frame. A word without a value is printed as the empty
    field. *)
Record row : Type := {
  word : Pandas.cell;
  occurrence : np_float;
  day : day_cell
}.

(** [pd.read_csv(fn, delimiter=tab, dtype={'word': str, 'occurrence':
    np.float64})] *)
Definition read_csv (f : file) : list (Pandas.cell * np_float) :=
  map (fun r => (Pandas.read_text (fst r), Assembler.read_field (snd r))) f.

(** [lambda w: answers.index(w) if w in answers else None] on a cell: a
    cell without a string is in no list of strings. *)
Definition day_of (answers : list string) (w : Pandas.cell) : option nat :=
  match w with
  | Pandas.Text s => Assembler.day_of answers s
  | _ => None
  end.

(** One result of the lambda in the column [apply] returns: positions stay
    integers when no result is [None], and become floats beside a null. *)
Definition day_cell_of (floats : bool) (d : option nat) : day_cell :=
  match d with
  | None => NullDay
  | Some n => if floats then FloatDay n else IntDay n
  end.

Definition no_day (answers : list string) (d : Pandas.cell * np_float)
  : bool :=
  match day_of answers (fst d) with
  | None => true
  | Some _ => false
  end.

(** The frame after cell 24, in file order. *)
Definition frame (answers : list string) (f : file) : list row :=
  let data := read_csv f in
  let floats := existsb (no_day answers) data in
  map (fun d => {| word := fst d;
                   occurrence := Assembler.replace_nan (snd d);
                   day := day_cell_of floats (day_of answers (fst d)) |})
      data.

Definition has_word (r : row) : bool :=
  match word r with
  | Pandas.Text _ => true
  | _ => false
  end.

Definition key (r : row) : string :=
  match word r with
  | Pandas.Text s => s
  | _ => EmptyString
  end.

Fixpoint insert (r : row) (sorted : list row) : list row :=
  match sorted with
  | [] => [r]
  | x :: rest =>
      if String.leb (key r) (key x) then r :: sorted
      else x :: insert r rest
  end.

Fixpoint sort_text (rows : list row) : list row :=
  match rows with
  | [] => []
  | r :: rest => insert r (sort_text rest)
  end.

(** [sort_values('word')]: the rows that have a word, ascending by word,
    then the rows without one, in the order of the frame. Rows with equal
    words keep their order here; pandas leaves their order open. *)
Definition sort_values (rows : list row) : list row :=
  sort_text (filter has_word rows)
  ++ filter (fun r => negb (has_word r)) rows.

(** The order of the rows that have a word. *)
Definition by_key (a b : row) : Prop := String.leb (key a) (key b) = true.

(** The order of the whole export: rows that have a word stand in
    ascending order of their words, and before every row without one. *)
Definition export_order (a b : row) : Prop :=
  match word a, word b with
  | Pandas.Text x, Pandas.Text y => String.leb x y = true
  | Pandas.Text _, _ => True
  | _, Pandas.Text _ => False
  | _, _ => True
  end.

(** The rows of [wordle.csv]. *)
Definition export (answers : list string) (f : file) : list row :=
  sort_values (frame answers f).

(** [data[~data['day'].isnull()]]: the rows that have a day. *)
Definition with_day (rows : list row) : list row :=
  filter (fun r => match day r with NullDay => false | _ => true end) rows.


(** The notebook from the cache step to the export, when the cache step
    runs to its end. *)
Definition pipeline (lookup : string -> option usage)
  (wordlist answers : list string) (st : store) : list row :=
  export answers (written (cache_step lookup wordlist answers st)).

End Dataset.

(** ** A small network for the worked example *)

Module Example.

Import Client.

Definition answered (j : json) : response :=
  {| status_code := 200; json_body := Some j |}.

Definition rate_limited : response :=
  {| status_code := 429; json_body := None |}.

Definition ok (j : json) : outcome := Response (answered j).

Definition busy : outcome := Response rate_limited.

Definition series (w : string) (ts : list Q) : json :=
  JArr [JObj [("ngram", JStr w); ("parent", JStr EmptyString);
              ("type", JStr "NGRAM"); ("timeseries", JArr (map JNum ts))]].

(** [abcde] is answered after two rate-limit responses, [bcdef] has no
    result, [cdefg] is answered at once. *)
Definition requests_get (u : string) (p : params) (n : nat) : outcome :=
  if String.eqb (content p) "abcde" then
    if n <? 2 then busy else ok (series "abcde" [0.1%Q])
  else if String.eqb (content p) "cdefg" then ok (series "cdefg" [0.2%Q])
  else ok (JArr []).

(** The responses to the repeated request for [abcde]. *)
Definition abcde_responses (n : nat) : response :=
  if n <? 2 then rate_limited else answered (series "abcde" [0.1%Q]).

Definition lookup : string -> option usage :=
  Cache.client_lookup requests_get np_mean_numbers 5.

Definition wordlist : list string := ["abcde"].
Definition answers : list string := ["bcdef"; "cdefg"].

(** The same lookups as a function that always returns. *)
Definition usage_of (w : string) : usage :=
  match lookup w with
  | Some occurrence => occurrence
  | None => EmptyValue
  end.

(** [wordle.tsv] after a run that was stopped after its first append. *)
Definition stopped : Cache.store :=
  Some (Cache.interrupted (Cache.total usage_of) 1 wordlist answers None).

(** Lookups that always return the missing value. *)
Definition no_result (w : string) : usage := EmptyValue.

(** A record file that holds the word [nan] alone, its lookup having had no
    result. *)
Definition nan_file : Cache.file := [("nan", EmptyValue)].


End Example.

(** * Properties *)

(** ** The array extractor *)

Module ExtractorFacts.

Import Extractor.

Lemma lines_ordered : answers_line < wordlist_line.
Proof. unfold answers_line, wordlist_line. lia. Qed.

Lemma extract_IndexError (text : string) :
  extract text = IndexError <->
  List.length (split newline text) <= wordlist_line.
Proof.
  pose proof lines_ordered as Hlt.
  unfold extract.
  destruct (nth_error (split newline text) answers_line) as [la|] eqn:Ea.
  - destruct (nth_error (split newline text) wordlist_line) as [lw|] eqn:Ew.
    + split; [discriminate|].
      intros Hlen. apply nth_error_None in Hlen. congruence.
    + split; [|reflexivity].
      intros _. now apply nth_error_None.
  - split; [|reflexivity].
    intros _. apply nth_error_None in Ea. lia.
Qed.

(** C9, at a concrete text: 1119 blank lines hold no array literal, and the
    extraction step returns two word sequences all the same. *)
Lemma extract_blank_lines :
  literals_present (blank_lines 1118) = false /\
  extract (blank_lines 1118) = Extracted [EmptyString] [EmptyString] /\
  ~ (forall text, literals_present text = false -> extract text = IndexError).
Proof.
  assert (Hp : literals_present (blank_lines 1118) = false)
    by (vm_compute; reflexivity).
  assert (He : extract (blank_lines 1118)
               = Extracted [EmptyString] [EmptyString])
    by (vm_compute; reflexivity).
  repeat split; trivial.
  intros always_fails. specialize (always_fails _ Hp). congruence.
Qed.

(** C9, amended: the extraction step fails, with the [IndexError] of the line
    subscript, exactly when the text has fewer than 1119 lines; on any longer
    text it returns [array2List] of lines 1117 and 1118 from their fourteenth
    character on, whatever those lines hold. *)
Theorem extract_fails_iff_too_short (text : string) :
  (extract text = IndexError <->
   List.length (split newline text) <= wordlist_line) /\
  (forall la lw,
      nth_error (split newline text) answers_line = Some la ->
      nth_error (split newline text) wordlist_line = Some lw ->
      extract text =
        Extracted (array2List (slice_from literal_offset la))
                  (array2List (slice_from literal_offset lw))).
Proof.
  split; [apply extract_IndexError|].
  intros la lw Ha Hw. unfold extract. now rewrite Ha, Hw.
Qed.

End ExtractorFacts.

(** ** The frequency client *)

Module ClientFacts.

Import Client.

Section Fetch.

Variable requests_get : string -> params -> nat -> outcome.
Variable u : string.
Variable p : params.
Variable wait : nat.

#[local] Abbreviation retries := (Client.retries u p wait).

Lemma retries_S (k : nat) :
  [Sleep wait; Get u p] ++ retries k = retries (S k).
Proof. reflexivity. Qed.

Variable rs : nat -> response.
Hypothesis responses : forall n, requests_get u p n = Response (rs n).

Lemma while_429_looping (fuel : nat) :
  (forall n, status_code (rs n) = tooManyReqsCode) ->
  forall n res trace,
    status_code res = tooManyReqsCode ->
    while_429 requests_get u p wait fuel n res trace = Looping.
Proof.
  intros Hall. induction fuel as [|fuel IH]; intros n res trace Hres; simpl.
  - now rewrite Hres, Nat.eqb_refl.
  - rewrite Hres, Nat.eqb_refl, responses. apply IH, Hall.
Qed.

Lemma while_429_returns (d : nat) :
  forall m fuel trace,
    d <= fuel ->
    (forall i, m <= i < m + d -> status_code (rs i) = tooManyReqsCode) ->
    status_code (rs (m + d)) <> tooManyReqsCode ->
    while_429 requests_get u p wait fuel (S m) (rs m) trace
    = Returned (rs (m + d)) (trace ++ retries d).
Proof.
  induction d as [|d IH]; intros m fuel trace Hfuel H429 Hlast.
  - rewrite Nat.add_0_r in *.
    apply Nat.eqb_neq in Hlast.
    unfold retries. simpl. rewrite app_nil_r.
    destruct fuel; simpl; now rewrite Hlast.
  - destruct fuel as [|fuel]; [lia|]. simpl.
    rewrite (H429 m) by lia. rewrite Nat.eqb_refl, responses.
    rewrite (IH (S m) fuel).
    + replace (S m + d) with (m + S d) by lia.
      now rewrite <- app_assoc, retries_S.
    + lia.
    + intros i Hi. apply H429. lia.
    + now replace (S m + d) with (m + S d) by lia.
Qed.

Lemma fetch_looping :
  (forall n, status_code (rs n) = tooManyReqsCode) ->
  forall fuel, fetch requests_get u p wait fuel = Looping.
Proof.
  intros Hall fuel. unfold fetch.
  rewrite responses, Hall, Nat.eqb_refl.
  now apply while_429_looping.
Qed.

Lemma fetch_returns (k : nat) :
  status_code (rs k) <> tooManyReqsCode ->
  (forall i, i < k -> status_code (rs i) = tooManyReqsCode) ->
  forall fuel, k <= fuel ->
    fetch requests_get u p wait fuel = Returned (rs k) (Get u p :: retries k).
Proof.
  intros Hk Hbefore fuel Hfuel. unfold fetch. rewrite responses.
  destruct k as [|k].
  - apply Nat.eqb_neq in Hk. now rewrite Hk.
  - rewrite (Hbefore 0) by lia. rewrite Nat.eqb_refl.
    apply (while_429_returns (S k) 0 fuel [Get u p]); trivial.
    intros i Hi. apply Hbefore. lia.
Qed.

End Fetch.



Lemma abcde_responses_given (n : nat) :
  Example.requests_get url (args "abcde") n
  = Response (Example.abcde_responses n).
Proof.
  unfold Example.requests_get, Example.abcde_responses. simpl.
  now destruct (n <? 2).
Qed.

(** C8: on any sequence of responses to the repeated request, [fetch] never
    returns while every response has status 429 (no bound on the number of
    loop iterations lets it return), and when response [k] is the first whose
    status is not 429 it returns exactly that response after [k] retries, each
    one preceded by a sleep of the same [wait] seconds. *)
Theorem fetch_retries_until_not_429
  (requests_get : string -> params -> nat -> outcome)
  (u : string) (p : params) (wait : nat) (rs : nat -> response)
  (responses : forall n, requests_get u p n = Response (rs n)) :
  ((forall n, status_code (rs n) = tooManyReqsCode) ->
   forall fuel, fetch requests_get u p wait fuel = Looping) /\
  (forall k,
      status_code (rs k) <> tooManyReqsCode ->
      (forall i, i < k -> status_code (rs i) = tooManyReqsCode) ->
      forall fuel, k <= fuel ->
        fetch requests_get u p wait fuel
        = Returned (rs k) (Get u p :: retries u p wait k)).
Proof.
  split.
  - now apply fetch_looping.
  - intros k. now apply fetch_returns.
Qed.

(** Two rate-limit responses, then the answer: two sleeps of one second. *)
Lemma fetch_retries_example :
  fetch Example.requests_get url (args "abcde") 1 5
  = Returned (Example.abcde_responses 2)
      (Get url (args "abcde") :: retries url (args "abcde") 1 2).
Proof.
  apply (proj2 (fetch_retries_until_not_429 Example.requests_get url
                  (args "abcde") 1 Example.abcde_responses
                  abcde_responses_given) 2).
  - simpl. discriminate.
  - intros [|[|i]] Hi; [reflexivity|reflexivity|lia].
  - lia.
Defined.

Section Usage.

Variable requests_get : string -> params -> nat -> outcome.
Variable np_mean : json -> option np_float.

Lemma handle_body_undecodable (res : response) :
  json_body res = None -> handle np_mean res = EmptyValue.
Proof. unfold handle, try_mean. now intros ->. Qed.

Lemma handle_no_series (res : response) (j : json) :
  json_body res = Some j -> timeseries j = None ->
  handle np_mean res = EmptyValue.
Proof.
  unfold handle, try_mean, timeseries. intros -> H. simpl in *.
  destruct (subscript_0 j) as [first|]; simpl in *; [|reflexivity].
  now rewrite H.
Qed.

Lemma handle_mean_raises (res : response) (j v : json) :
  json_body res = Some j -> timeseries j = Some v -> np_mean v = None ->
  handle np_mean res = EmptyValue.
Proof.
  unfold handle, try_mean, timeseries. intros -> H Hm. simpl in *.
  destruct (subscript_0 j) as [first|]; simpl in *; [|discriminate].
  now rewrite H; simpl; rewrite Hm.
Qed.


Lemma getNgramUsage_returned (ngram : string) (fuel : nat)
  (res : response) (trace : list event) :
  fetch requests_get url (args ngram) 1 fuel = Returned res trace ->
  getNgramUsage requests_get np_mean ngram fuel
  = Returned (handle np_mean res) trace.
Proof. unfold getNgramUsage. now intros ->. Qed.

(** With enough iterations allowed, the lookup returns as soon as a
    response that is not a rate limit arrives. *)
Lemma getNgramUsage_after_retries (ngram : string) (rs : nat -> response)
  (k : nat) :
  (forall n, requests_get url (args ngram) n = Response (rs n)) ->
  status_code (rs k) <> tooManyReqsCode ->
  (forall i, i < k -> status_code (rs i) = tooManyReqsCode) ->
  forall fuel, k <= fuel ->
    getNgramUsage requests_get np_mean ngram fuel
    = Returned (handle np_mean (rs k))
        (Get url (args ngram) :: retries url (args ngram) 1 k).
Proof.
  intros Hrs Hk Hbefore fuel Hfuel.
  apply getNgramUsage_returned.
  now apply (fetch_returns requests_get url (args ngram) 1 rs Hrs k).
Qed.

Lemma getNgramUsage_inv (ngram : string) (fuel : nat) (occ : usage)
  (trace : list event) :
  getNgramUsage requests_get np_mean ngram fuel = Returned occ trace ->
  exists res, fetch requests_get url (args ngram) 1 fuel = Returned res trace
              /\ occ = handle np_mean res.
Proof.
  unfold getNgramUsage.
  destruct (fetch requests_get url (args ngram) 1 fuel) as [res t| |];
    try discriminate.
  intros [= <- <-]. eauto.
Qed.

End Usage.


(** C6, at a concrete network: when [requests.get] raises, the lookup raises
    too; it does not return the missing value. *)
Lemma getNgramUsage_network_error :
  getNgramUsage unreachable_host np_mean_numbers "abcde" 1
  = Raised [Get url (args "abcde")] /\
  getNgramUsage unreachable_host np_mean_numbers "abcde" 1
  <> Returned EmptyValue [Get url (args "abcde")].
Proof. split; [reflexivity|discriminate]. Qed.

(** C6, amended: once [fetch] has returned a response, the lookup returns
    and never raises; it returns the missing value when the body does not
    decode, when the result list is empty, when the first entry has no time
    series, and when [numpy.mean] raises. An exception raised by the request
    itself is not caught: the lookup raises it. *)
Theorem getNgramUsage_total_on_responses
  (requests_get : string -> params -> nat -> outcome)
  (np_mean : json -> option np_float) (ngram : string) (fuel : nat) :
  (forall res trace,
      fetch requests_get url (args ngram) 1 fuel = Returned res trace ->
      exists occ,
        getNgramUsage requests_get np_mean ngram fuel = Returned occ trace /\
        (json_body res = None -> occ = EmptyValue) /\
        (json_body res = Some (JArr []) -> occ = EmptyValue) /\
        (forall j, json_body res = Some j -> timeseries j = None ->
                   occ = EmptyValue) /\
        (forall j v, json_body res = Some j -> timeseries j = Some v ->
                     np_mean v = None -> occ = EmptyValue)) /\
  (forall trace,
      fetch requests_get url (args ngram) 1 fuel = Raised trace ->
      getNgramUsage requests_get np_mean ngram fuel = Raised trace).
Proof.
  split.
  - intros res trace Hf. exists (handle np_mean res).
    split; [now apply getNgramUsage_returned|].
    split; [apply handle_body_undecodable|].
    split; [|split].
    + intros H. now apply (handle_no_series np_mean res (JArr [])).
    + intros j. apply handle_no_series.
    + intros j v. apply handle_mean_raises.
  - intros trace Hf. unfold getNgramUsage. now rewrite Hf.
Qed.




(** The lookup of [abcde] on the sample network returns after two
    retries. *)
Lemma getNgramUsage_after_retries_example :
  getNgramUsage Example.requests_get np_mean_numbers "abcde" 5
  = Returned (handle np_mean_numbers (Example.abcde_responses 2))
      (Get url (args "abcde") :: retries url (args "abcde") 1 2).
Proof.
  apply (getNgramUsage_after_retries Example.requests_get np_mean_numbers
           "abcde" Example.abcde_responses 2 abcde_responses_given).
  - simpl. discriminate.
  - intros [|[|i]] Hi; [reflexivity|reflexivity|lia].
  - lia.
Defined.

End ClientFacts.

(** ** Reading the word column *)

Module PandasFacts.

Import Pandas.

Lemma forallb_false {A : Type} (test : A -> bool) (l : list A) (x : A) :
  In x l -> test x = false -> forallb test l = false.
Proof.
  intros Hin Hx. destruct (forallb test l) eqn:E; [|reflexivity].
  rewrite forallb_forall in E. rewrite (E x Hin) in Hx. discriminate.
Qed.

Lemma textual_parts (w : string) :
  textual w = true ->
  word_ok w = true /\ is_number w = false /\ is_bool w = false.
Proof.
  unfold textual. intros H.
  apply andb_prop in H as [H Hb]. apply andb_prop in H as [Hw Hn].
  apply negb_true_iff in Hb, Hn. now repeat split.
Qed.

Lemma word_ok_not_na (w : string) : word_ok w = true -> is_na w = false.
Proof.
  unfold word_ok. intros H. apply andb_prop in H as [_ H].
  now apply negb_true_iff.
Qed.

Lemma read_text_as_written (w : string) :
  is_na w = false -> read_text w = Text w.
Proof. unfold read_text. now intros ->. Qed.

(** A textual word in the column makes pandas read the column as strings. *)
Lemma read_anchored (col : list string) :
  existsb textual col = true -> read_column col = map read_text col.
Proof.
  intros H. apply existsb_exists in H as [a [Hin Ha]].
  apply textual_parts in Ha as [Hok [Hn Hb]].
  apply word_ok_not_na in Hok.
  assert (Hp : In a (filter (fun s => negb (is_na s)) col)).
  { apply filter_In. split; [assumption|]. now rewrite Hok. }
  unfold read_column.
  rewrite (forallb_false is_number _ a Hp Hn).
  now rewrite (forallb_false is_bool _ a Hp Hb).
Qed.

Lemma map_read_text (col : list string) :
  forallb word_ok col = true -> map read_text col = map Text col.
Proof.
  intros H. apply map_ext_in. intros w Hw.
  rewrite forallb_forall in H.
  apply read_text_as_written, word_ok_not_na, H, Hw.
Qed.

(** A legible column is read back as written. *)
Lemma legible_read (col : list string) :
  legible col = true -> read_column col = map Text col.
Proof.
  unfold legible. intros H. apply andb_prop in H as [Hok Ha].
  destruct col as [|w col]; [reflexivity|].
  rewrite read_anchored by assumption. now apply map_read_text.
Qed.

Lemma cell_is_In (w : string) (q : list cell) :
  existsb (cell_is w) q = true <-> In (Text w) q.
Proof.
  rewrite existsb_exists. split.
  - intros [c [Hin Hc]]. destruct c; try discriminate.
    apply String.eqb_eq in Hc. now subst.
  - intros H. exists (Text w). split; [assumption|apply String.eqb_refl].
Qed.

Lemma Text_In (w : string) (q : list string) :
  In (Text w) (map Text q) <-> In w q.
Proof.
  rewrite in_map_iff. split.
  - now intros [x [[= ->] Hx]].
  - intros H. now exists w.
Qed.

(** Whatever type the column is read as, a string in it is a field of the
    file. *)
Lemma read_column_Text (col : list string) (w : string) :
  In (Text w) (read_column col) -> In w col.
Proof.
  unfold read_column.
  destruct (forallb is_number _).
  - intros H. apply in_map_iff in H as [s [Hs _]].
    destruct (is_na s); discriminate.
  - destruct (forallb is_bool _).
    + intros H. apply in_map_iff in H as [s [Hs _]].
      destruct (is_na s); discriminate.
    + intros H. apply in_map_iff in H as [s [Hs Hin]].
      unfold read_text in Hs. destruct (is_na s); [discriminate|].
      now injection Hs as ->.
Qed.

Lemma legible_universe_ok (words : list string) :
  legible_universe words = true -> forallb word_ok words = true.
Proof.
  destruct words as [|w rest]; [reflexivity|]. simpl. intros H.
  apply andb_prop in H as [Hw Hrest].
  apply textual_parts in Hw as [-> _]. assumption.
Qed.

Lemma forallb_firstn {A : Type} (test : A -> bool) (k : nat) (l : list A) :
  forallb test l = true -> forallb test (firstn k l) = true.
Proof.
  revert l. induction k as [|k IH]; intros [|x l]; simpl; trivial.
  intros H. apply andb_prop in H as [-> H]. now apply IH.
Qed.

(** The first words of a legible universe form a legible column. *)
Lemma legible_universe_firstn (words : list string) (k : nat) :
  legible_universe words = true -> legible (firstn k words) = true.
Proof.
  intros H. pose proof (legible_universe_ok words H) as Hok.
  unfold legible. rewrite (forallb_firstn _ k _ Hok). simpl.
  destruct words as [|w rest]; [now destruct k|].
  destruct k as [|k]; [reflexivity|]. simpl in *.
  apply andb_prop in H as [-> _]. reflexivity.
Qed.

(** A legible column stays legible when words that are no missing-value
    tokens are added, provided it is not empty. *)
Lemma legible_app (a b : list string) :
  legible a = true -> a <> [] -> forallb word_ok b = true ->
  legible (a ++ b) = true.
Proof.
  unfold legible. intros H Hne Hb. apply andb_prop in H as [Hok Ha].
  rewrite forallb_app, Hok, Hb. simpl.
  destruct a as [|x a]; [contradiction|]. simpl in *.
  apply orb_prop in Ha as [->|Ha]; [reflexivity|].
  rewrite existsb_app, Ha. now rewrite orb_true_r.
Qed.

End PandasFacts.

(** ** The resumable cache writer *)

Module CacheFacts.

Import Cache PandasFacts.

Lemma mem_In (w : string) (l : list string) : mem w l = true <-> In w l.
Proof.
  unfold mem. rewrite existsb_exists. split.
  - intros [x [Hx E]]. apply String.eqb_eq in E. now subst.
  - intros H. exists w. split; [assumption|apply String.eqb_refl].
Qed.

Lemma isQueried_true (queried : list Pandas.cell) (w : string) :
  isQueried queried w = true <-> ~ In (Pandas.Text w) queried.
Proof.
  unfold isQueried. rewrite negb_true_iff, <- cell_is_In.
  destruct (existsb (Pandas.cell_is w) queried); split; congruence.
Qed.

Lemma wordsToQuery_In (words : list string) (f : file) (w : string) :
  In w (wordsToQuery words f) <->
  In w words /\ ~ In (Pandas.Text w) (queriedWords f).
Proof. unfold wordsToQuery. now rewrite filter_In, isQueried_true. Qed.

(** When the word column is read back as written, a word is queried
    exactly when it is not in the column. *)
Lemma queriedWords_legible (f : file) :
  Pandas.legible (word_column f) = true ->
  queriedWords f = map Pandas.Text (word_column f).
Proof. apply legible_read. Qed.

Lemma isQueried_legible (f : file) (w : string) :
  Pandas.legible (word_column f) = true ->
  isQueried (queriedWords f) w = negb (mem w (word_column f)).
Proof.
  intros H. rewrite (queriedWords_legible f H).
  destruct (mem w (word_column f)) eqn:E; simpl.
  - apply mem_In in E. unfold isQueried. apply negb_false_iff.
    now apply cell_is_In, Text_In.
  - apply isQueried_true. rewrite Text_In, <- mem_In. congruence.
Qed.

Lemma wordsToQuery_legible (words : list string) (f : file) :
  Pandas.legible (word_column f) = true ->
  wordsToQuery words f
  = filter (fun w => negb (mem w (word_column f))) words.
Proof.
  intros H. unfold wordsToQuery. apply filter_ext.
  intros w. now apply isQueried_legible.
Qed.

Lemma wordsToQuery_legible_In (words : list string) (f : file)
  (w : string) :
  Pandas.legible (word_column f) = true ->
  In w (wordsToQuery words f) <-> In w words /\ ~ In w (word_column f).
Proof.
  intros H. rewrite wordsToQuery_In, (queriedWords_legible f H), Text_In.
  reflexivity.
Qed.

Lemma filter_none {A : Type} (test : A -> bool) (l : list A) :
  (forall x, In x l -> test x = false) -> filter test l = [].
Proof.
  induction l as [|a l IH]; intros H; simpl; [reflexivity|].
  rewrite (H a) by now left. apply IH. intros x Hx. apply H. now right.
Qed.

Lemma filter_all {A : Type} (test : A -> bool) (l : list A) :
  (forall x, In x l -> test x = true) -> filter test l = l.
Proof.
  induction l as [|a l IH]; intros H; simpl; [reflexivity|].
  rewrite (H a) by now left. f_equal. apply IH. intros x Hx. apply H. now right.
Qed.

Lemma NoDup_app_disjoint {A : Type} (l1 l2 : list A) :
  NoDup (l1 ++ l2) -> forall a, In a l1 -> ~ In a l2.
Proof.
  induction l1 as [|x l1 IH]; simpl; intros Hnd a Ha; [contradiction|].
  inversion Hnd as [|? ? Hx Hrest]; subst.
  destruct Ha as [->|Ha].
  - intros H2. apply Hx. apply in_or_app. now right.
  - now apply IH.
Qed.

Lemma firstn_more {A : Type} (k k' : nat) (l : list A) :
  firstn k l ++ firstn k' (skipn k l) = firstn (k + k') l.
Proof.
  rewrite firstn_skipn_comm.
  replace (firstn k l) with (firstn k (firstn (k + k') l)).
  - apply firstn_skipn.
  - rewrite firstn_firstn. f_equal. lia.
Qed.

Lemma firstn_In {A : Type} (k : nat) (l : list A) (x : A) :
  In x (firstn k l) -> In x l.
Proof.
  revert l. induction k as [|k IH]; intros [|y l]; simpl; try contradiction.
  intros [->|H]; [now left|right; now apply IH].
Qed.

(** Against a duplicate-free list, the words not among its first [k] are
    the words after its first [k]. *)
Lemma unqueried_is_rest (words : list string) (k : nat) :
  NoDup words ->
  filter (fun w => negb (mem w (firstn k words))) words = skipn k words.
Proof.
  intros Hnd.
  rewrite <- (firstn_skipn k words) in Hnd.
  set (test := fun w => negb (mem w (firstn k words))).
  rewrite <- (firstn_skipn k words) at 1.
  rewrite filter_app, filter_none, filter_all; [reflexivity| |]; unfold test.
  - intros x Hx. apply negb_true_iff.
    destruct (mem x (firstn k words)) eqn:E; [|reflexivity].
    apply mem_In in E. now destruct (NoDup_app_disjoint _ _ Hnd x E).
  - intros x Hx. apply negb_false_iff. now apply mem_In.
Qed.

Lemma word_column_records (lookup : string -> usage) (ws : list string) :
  word_column (records_of lookup ws) = ws.
Proof.
  unfold word_column, records_of. rewrite map_map. simpl. apply map_id.
Qed.

Lemma word_column_app (f g : file) :
  word_column (f ++ g) = word_column f ++ word_column g.
Proof. apply map_app. Qed.

Lemma wordsToQuery_fresh (words : list string) : wordsToQuery words [] = words.
Proof. unfold wordsToQuery. now apply filter_all. Qed.

Section Loop.

Variable lookup : string -> option usage.


(** The records a run appends are those of the first words it was asked to
    query, in order. *)
Lemma append_loop_prefix (todo : list string) :
  forall f calls, exists extra j,
    written (append_loop lookup todo f calls) = f ++ extra /\
    word_column extra = firstn j todo.
Proof.
  induction todo as [|w todo IH]; intros f calls; simpl.
  - exists [], 0. now rewrite app_nil_r.
  - destruct (lookup w) as [occ|].
    + destruct (IH (f ++ [(w, occ)]) (calls ++ [w])) as [extra [j [E M]]].
      exists ((w, occ) :: extra), (S j). split.
      * now rewrite E, <- app_assoc.
      * unfold word_column in *. simpl. now rewrite M.
    + exists [], 0. now rewrite app_nil_r.
Qed.




End Loop.

Section TotalLookup.

Variable lookup : string -> usage.

Lemma append_loop_total (todo : list string) :
  forall f calls,
    append_loop (total lookup) todo f calls
    = {| written := f ++ records_of lookup todo;
         queried := calls ++ todo;
         complete := true |}.
Proof.
  induction todo as [|w todo IH]; intros f calls; simpl.
  - now rewrite !app_nil_r.
  - unfold total at 1. rewrite IH, <- !app_assoc. reflexivity.
Qed.

Variables wordlist answers : list string.
Hypothesis readable : Pandas.legible_universe (wordlist ++ answers) = true.

Lemma wordsToQuery_ok (f : file) :
  forallb Pandas.word_ok (wordsToQuery (wordlist ++ answers) f) = true.
Proof.
  apply forallb_forall. intros w Hw.
  apply wordsToQuery_In in Hw as [Hw _].
  pose proof (legible_universe_ok _ readable) as Hok.
  rewrite forallb_forall in Hok. now apply Hok.
Qed.

(** Every state runs can leave has a word column that is read back as
    written. *)
Lemma reachable_legible (st : store) :
  reachable lookup wordlist answers st ->
  Pandas.legible (word_column (create_if_absent st)) = true.
Proof.
  induction 1 as [|st k _ IH]; [reflexivity|].
  simpl. unfold interrupted. rewrite append_loop_total. simpl.
  rewrite word_column_app, word_column_records.
  destruct (create_if_absent st) as [|r f] eqn:E.
  - simpl. rewrite wordsToQuery_fresh.
    now apply legible_universe_firstn.
  - apply legible_app; [assumption|discriminate|].
    apply forallb_firstn, wordsToQuery_ok.
Qed.

Hypothesis distinct : NoDup (wordlist ++ answers).

(** Every state runs can leave holds the records of the first words of the
    universe, in order. *)
Lemma reachable_prefix (st : store) :
  reachable lookup wordlist answers st ->
  exists k,
    create_if_absent st = records_of lookup (firstn k (wordlist ++ answers)).
Proof.
  induction 1 as [|st k' Hr [k IH]].
  - exists 0. reflexivity.
  - exists (k + k'). simpl. unfold interrupted.
    rewrite append_loop_total. simpl.
    rewrite (wordsToQuery_legible _ _ (reachable_legible st Hr)).
    rewrite IH, word_column_records.
    rewrite unqueried_is_rest by assumption.
    unfold records_of. rewrite <- map_app. now rewrite firstn_more.
Qed.

(** From any such state the cell, run to its end, leaves one record per
    word of the universe, in order. *)
Lemma cache_step_from_reachable (st : store) :
  reachable lookup wordlist answers st ->
  cache_step (total lookup) wordlist answers st
  = {| written := records_of lookup (wordlist ++ answers);
       queried := wordsToQuery (wordlist ++ answers) (create_if_absent st);
       complete := true |}.
Proof.
  intros Hr. destruct (reachable_prefix st Hr) as [k Hk].
  unfold cache_step. rewrite append_loop_total. simpl. f_equal.
  rewrite (wordsToQuery_legible _ _ (reachable_legible st Hr)).
  rewrite Hk, word_column_records.
  rewrite unqueried_is_rest by assumption.
  unfold records_of. rewrite <- map_app. now rewrite firstn_skipn.
Qed.

End TotalLookup.

(** Without a record file the run queries every word of the universe, word
    list first, and records each of them in that order. *)
Theorem fresh_run_queries_all (lookup : string -> usage)
  (wordlist answers : list string) :
  cache_step (total lookup) wordlist answers None
  = {| written := records_of lookup (wordlist ++ answers);
       queried := wordlist ++ answers;
       complete := true |}.
Proof.
  unfold cache_step. rewrite append_loop_total. simpl.
  unfold wordsToQuery. now rewrite filter_all.
Qed.

(** A record is appended only for a word whose lookup returned, with the
    value it returned, and the run stops at the first lookup that raises:
    the lookups made are the words of the appended records, followed by the
    word whose lookup raised when there is one. *)
Theorem records_follow_lookups (lookup : string -> option usage)
  (todo : list string) :
  forall f calls, exists extra,
    written (append_loop lookup todo f calls) = f ++ extra /\
    Forall (fun r => lookup (fst r) = Some (snd r)) extra /\
    (if complete (append_loop lookup todo f calls)
     then queried (append_loop lookup todo f calls)
          = calls ++ map fst extra
     else exists w, lookup w = None /\
                    queried (append_loop lookup todo f calls)
                    = calls ++ map fst extra ++ [w]).
Proof.
  induction todo as [|w todo IH]; intros f calls; simpl.
  - exists []. simpl. now rewrite !app_nil_r.
  - destruct (lookup w) as [occ|] eqn:E.
    + destruct (IH (f ++ [(w, occ)]) (calls ++ [w])) as [extra [Hw [Hl Hq]]].
      exists ((w, occ) :: extra). split; [|split].
      * now rewrite Hw, <- app_assoc.
      * now constructor.
      * destruct (complete (append_loop lookup todo (f ++ [(w, occ)])
                              (calls ++ [w]))).
        -- rewrite Hq, <- app_assoc. reflexivity.
        -- destruct Hq as [x [Hx Hq]]. exists x. split; [assumption|].
           rewrite Hq, <- app_assoc. reflexivity.
    + exists []. simpl. split; [now rewrite app_nil_r|].
      split; [constructor|]. exists w. now split.
Qed.




End CacheFacts.

(** ** The occurrence column *)

Module AssemblerFacts.

Import Cache Assembler CacheFacts.

Lemma insert_perm (r : row) (l : list row) : Permutation (insert r l) (r :: l).
Proof.
  induction l as [|x l IH]; simpl; [reflexivity|].
  destruct (String.leb (word r) (word x)); [reflexivity|].
  rewrite IH. apply perm_swap.
Qed.

Lemma sort_values_perm (l : list row) : Permutation (sort_values l) l.
Proof.
  induction l as [|r l IH]; simpl; [reflexivity|].
  rewrite insert_perm. now constructor.
Qed.




Lemma index_In (w : string) (answers : list string) :
  In w answers -> exists i, index w answers = Some i.
Proof.
  induction answers as [|a answers IH]; simpl; [contradiction|].
  intros H. destruct (String.eqb a w) eqn:E; [eauto|].
  destruct H as [->|H]; [now rewrite String.eqb_refl in E|].
  destruct (IH H) as [i ->]. simpl. eauto.
Qed.

Lemma day_of_answer (answers : list string) (w : string) :
  In w answers -> exists i, day_of answers w = Some i /\ index w answers = Some i.
Proof.
  intros H. unfold day_of. rewrite (proj2 (mem_In w answers) H).
  destruct (index_In w answers H) as [i Hi]. eauto.
Qed.

Lemma day_of_other (answers : list string) (w : string) :
  ~ In w answers -> day_of answers w = None.
Proof.
  intros H. unfold day_of.
  destruct (mem w answers) eqn:E; [|reflexivity].
  apply mem_In in E. contradiction.
Qed.



End AssemblerFacts.

(** ** The occurrence column, from the client to the export *)

Module Pipeline.

Import Client Cache Assembler ClientFacts CacheFacts AssemblerFacts.



(** Every record the cache step appends with the client of cell 7 holds
    what a call of [getNgramUsage] on its word returned. *)
Lemma client_records_looked_up
  (requests_get : string -> params -> nat -> outcome)
  (np_mean : json -> option np_float) (fuel : nat) (todo : list string) :
  forall f calls w occ,
    In (w, occ)
       (written (append_loop (client_lookup requests_get np_mean fuel)
                   todo f calls)) ->
    In (w, occ) f \/
    exists trace,
      getNgramUsage requests_get np_mean w fuel = Returned occ trace.
Proof.
  induction todo as [|x todo IH]; intros f calls w occ; simpl; [now left|].
  unfold client_lookup at 1.
  destruct (getNgramUsage requests_get np_mean x fuel) as [o t| |] eqn:E;
    simpl; try (now left).
  intros H. apply IH in H as [H|H]; [|now right].
  apply in_app_or in H as [H|[[= <- <-]|[]]]; [now left|right; eauto].
Qed.



End Pipeline.

(** ** The dataset as pandas reads it *)

Module DatasetFacts.

Import Cache Dataset PandasFacts CacheFacts AssemblerFacts.

Lemma insert_row_perm (r : row) (l : list row) : Permutation (insert r l) (r :: l).
Proof.
  induction l as [|x l IH]; simpl; [reflexivity|].
  destruct (String.leb (key r) (key x)); [reflexivity|].
  rewrite IH. apply perm_swap.
Qed.

Lemma sort_text_perm (l : list row) : Permutation (sort_text l) l.
Proof.
  induction l as [|r l IH]; simpl; [reflexivity|].
  rewrite insert_row_perm. now constructor.
Qed.

Lemma filter_split_perm {A : Type} (test : A -> bool) (l : list A) :
  Permutation (filter test l ++ filter (fun x => negb (test x)) l) l.
Proof.
  induction l as [|x l IH]; simpl; [reflexivity|].
  destruct (test x); simpl.
  - now constructor.
  - rewrite <- Permutation_middle. now constructor.
Qed.

Lemma export_order_perm (l : list row) : Permutation (sort_values l) l.
Proof.
  unfold sort_values. rewrite sort_text_perm. apply filter_split_perm.
Qed.


Lemma insert_sorted (r : row) (l : list row) :
  Sorted by_key l -> Sorted by_key (insert r l).
Proof.
  induction 1 as [|x l Hs IH Hd]; simpl.
  - repeat constructor.
  - destruct (String.leb (key r) (key x)) eqn:E.
    + constructor; [now constructor|now constructor].
    + constructor; [assumption|].
      assert (Hxr : by_key x r).
      { destruct (String.leb_total (key r) (key x)); [congruence|assumption]. }
      destruct l as [|y l]; simpl; [now constructor|].
      destruct (String.leb (key r) (key y)); constructor; trivial.
      now inversion Hd.
Qed.

Lemma sort_text_sorted (l : list row) : Sorted by_key (sort_text l).
Proof.
  induction l as [|r l IH]; simpl; [constructor|now apply insert_sorted].
Qed.










(** C1, on the worked example: with word list [abcde], answers
    [bcdef; cdefg] and lookups that return 0.1, the missing value and 0.2,
    the rows are exported in the order abcde, bcdef, cdefg with the
    occurrences 0.1, 0 and 0.2, but the days of bcdef and cdefg are held as
    the floats 0.0 and 1.0, not as the integers 0 and 1. *)
Theorem worked_example_days_are_floats (lookup : string -> option usage) :
  lookup "abcde" = Some (Occurrence (Fin 0.1%Q)) ->
  lookup "bcdef" = Some EmptyValue ->
  lookup "cdefg" = Some (Occurrence (Fin 0.2%Q)) ->
  pipeline lookup ["abcde"] ["bcdef"; "cdefg"] None
  = [ {| word := Pandas.Text "abcde"; occurrence := Fin 0.1%Q;
         day := NullDay |};
      {| word := Pandas.Text "bcdef"; occurrence := Fin 0%Q;
         day := FloatDay 0 |};
      {| word := Pandas.Text "cdefg"; occurrence := Fin 0.2%Q;
         day := FloatDay 1 |} ].
Proof.
  intros Ha Hb Hc. unfold pipeline, cache_step. simpl.
  rewrite Ha. simpl. rewrite Hb. simpl. rewrite Hc. simpl.
  reflexivity.
Qed.

(** The worked example with the lookups made by the client of cell 7 on the
    sample network. *)
Lemma worked_example_on_network :
  pipeline Example.lookup Example.wordlist Example.answers None
  = [ {| word := Pandas.Text "abcde"; occurrence := Fin 0.1%Q;
         day := NullDay |};
      {| word := Pandas.Text "bcdef"; occurrence := Fin 0%Q;
         day := FloatDay 0 |};
      {| word := Pandas.Text "cdefg"; occurrence := Fin 0.2%Q;
         day := FloatDay 1 |} ].
Proof.
  apply (worked_example_days_are_floats Example.lookup); reflexivity.
Defined.




(** C3, at concrete universes. With the word list [abcde; abcde] a run
    stopped after one append and then resumed exports one row where the
    uninterrupted run exports two. With the word list [nan] and the answers
    [abcde] the resumed run calls the lookup of nan again although nan is
    recorded. *)
Lemma resume_can_differ :
  List.length
    (pipeline (total Example.no_result) ["abcde"; "abcde"] []
       (Some (interrupted (total Example.no_result) 1 ["abcde"; "abcde"] []
                None))) = 1 /\
  List.length
    (pipeline (total Example.no_result) ["abcde"; "abcde"] [] None) = 2 /\
  Example.nan_file
  = interrupted (total Example.no_result) 1 ["nan"] ["abcde"] None /\
  queried (cache_step (total Example.no_result) ["nan"] ["abcde"]
             (Some Example.nan_file)) = ["nan"; "abcde"].
Proof. repeat split. Qed.

(** C3, amended: over a universe of lowercase words that [read_csv] reads
    back as written (none a missing-value token, the first one read as a
    string whatever its column holds), from every state of the record file
    that interrupted runs can leave, a further run of the cache step calls
    the lookup exactly on the words of the universe that are not recorded
    yet, never on a recorded word, and runs to its end; when the words of
    the universe are also distinct, the export that follows equals the
    export of one uninterrupted run from no record file, the lookup
    returning the same value for a word in every run. *)
Theorem resume_equivalence (lookup : string -> usage)
  (wordlist answers : list string) (st : store) :
  Pandas.legible_universe (wordlist ++ answers) = true ->
  reachable lookup wordlist answers st ->
  (forall w,
      In w (queried (cache_step (total lookup) wordlist answers st)) <->
      In w (wordlist ++ answers) /\
      ~ In w (word_column (create_if_absent st))) /\
  complete (cache_step (total lookup) wordlist answers st) = true /\
  (NoDup (wordlist ++ answers) ->
   pipeline (total lookup) wordlist answers st
   = pipeline (total lookup) wordlist answers None).
Proof.
  intros Hleg Hr. unfold cache_step at 1 2. rewrite append_loop_total. simpl.
  split; [|split].
  - intros w. apply wordsToQuery_legible_In.
    now apply (reachable_legible lookup wordlist answers).
  - reflexivity.
  - intros Hnd. unfold pipeline.
    rewrite (cache_step_from_reachable lookup wordlist answers Hleg Hnd st Hr).
    rewrite (cache_step_from_reachable lookup wordlist answers Hleg Hnd None
               (reach_absent _ _ _)).
    reflexivity.
Qed.

(** The resumed run of the worked example exports what the uninterrupted
    run exports. *)
Lemma resume_equivalence_example :
  pipeline (total Example.usage_of) Example.wordlist Example.answers
    Example.stopped
  = pipeline (total Example.usage_of) Example.wordlist Example.answers None.
Proof.
  apply (resume_equivalence Example.usage_of Example.wordlist Example.answers
           Example.stopped eq_refl
           ltac:(apply reach_interrupted, reach_absent)).
  repeat constructor; simpl; intuition discriminate.
Defined.








End DatasetFacts.

(** ** More on the array extractor *)

Module ExtractorMore.

Import Extractor.

#[local] Infix "+++" := String.append (at level 60, right associativity).

Lemma append_empty_r (s : string) : s +++ EmptyString = s.
Proof. induction s as [|c s IH]; simpl; [reflexivity|now rewrite IH]. Qed.

Lemma all_chars_app (test : ascii -> bool) (a b : string) :
  all_chars test (a +++ b) = all_chars test a && all_chars test b.
Proof.
  induction a as [|c a IH]; simpl; [reflexivity|].
  now rewrite IH, andb_assoc.
Qed.

Lemma re_sub_app (a b : string) : re_sub (a +++ b) = re_sub a +++ re_sub b.
Proof.
  induction a as [|c a IH]; simpl; [reflexivity|].
  destruct (is_quote c || is_space c); simpl; now rewrite IH.
Qed.

Lemma re_sub_clean (w : string) : clean w = true -> re_sub w = w.
Proof.
  unfold clean. induction w as [|c w IH]; simpl; [reflexivity|].
  unfold clean_char at 1. intros H.
  apply andb_prop in H as [Hc Hw]. apply andb_prop in Hc as [Hc _].
  apply negb_true_iff in Hc. rewrite Hc. now rewrite IH.
Qed.

Lemma re_sub_quoted (w : string) : clean w = true -> re_sub (quoted w) = w.
Proof.
  intros H. unfold quoted.
  change (re_sub (String (ascii_of_nat 34) (w +++ String (ascii_of_nat 34) EmptyString)))
    with (re_sub (w +++ String (ascii_of_nat 34) EmptyString)).
  rewrite re_sub_app, (re_sub_clean w H). simpl. apply append_empty_r.
Qed.

Lemma re_sub_join (ws : list string) :
  Forall (fun w => clean w = true) ws ->
  re_sub (String.concat ", " (map quoted ws)) = String.concat "," ws.
Proof.
  induction 1 as [|w ws Hw Hws IH]; [reflexivity|].
  destruct ws as [|x xs].
  - simpl. now apply re_sub_quoted.
  - change (String.concat ", " (map quoted (w :: x :: xs)))
      with (quoted w +++ ", " +++ String.concat ", " (map quoted (x :: xs))).
    rewrite !re_sub_app, IH, (re_sub_quoted w Hw). reflexivity.
Qed.

Lemma clean_no_comma (w : string) :
  clean w = true -> all_chars (fun c => negb (Ascii.eqb c comma)) w = true.
Proof.
  unfold clean. induction w as [|c w IH]; simpl; [reflexivity|].
  unfold clean_char at 1. intros H.
  apply andb_prop in H as [Hc Hw]. apply andb_prop in Hc as [_ Hc].
  now rewrite Hc, IH.
Qed.

Lemma split_word (w : string) :
  all_chars (fun c => negb (Ascii.eqb c comma)) w = true ->
  split comma w = [w].
Proof.
  induction w as [|c w IH]; simpl; [reflexivity|].
  intros H. apply andb_prop in H as [Hc Hw].
  apply negb_true_iff in Hc. now rewrite Hc, IH.
Qed.

Lemma split_word_comma (w rest : string) :
  all_chars (fun c => negb (Ascii.eqb c comma)) w = true ->
  split comma (w +++ String comma rest) = w :: split comma rest.
Proof.
  induction w as [|c w IH]; simpl.
  - intros _. reflexivity.
  - intros H. apply andb_prop in H as [Hc Hw].
    apply negb_true_iff in Hc. now rewrite Hc, IH.
Qed.

Lemma split_join (ws : list string) :
  ws <> [] -> Forall (fun w => clean w = true) ws ->
  split comma (String.concat "," ws) = ws.
Proof.
  intros Hne Hall. induction Hall as [|w ws Hw Hws IH]; [contradiction|].
  destruct ws as [|x xs].
  - simpl. now apply split_word, clean_no_comma.
  - change (String.concat "," (w :: x :: xs))
      with (w +++ String comma (String.concat "," (x :: xs))).
    rewrite split_word_comma by now apply clean_no_comma.
    f_equal. apply IH. discriminate.
Qed.

Lemma drop_last_app (s : string) (c : ascii) :
  drop_last (s +++ String c EmptyString) = s.
Proof.
  induction s as [|a s IH]; [reflexivity|].
  simpl. destruct (s +++ String c EmptyString) eqn:E.
  - destruct s; discriminate.
  - now rewrite IH.
Qed.

Lemma slice_from_app (pre s : string) :
  slice_from (String.length pre) (pre +++ s) = s.
Proof. induction pre as [|c pre IH]; simpl; [now destruct s|assumption]. Qed.

(** The words of a literal come back as they were written. *)
Lemma array2List_literal (ws : list string) :
  ws <> [] -> Forall (fun w => clean w = true) ws ->
  array2List (array_literal ws) = ws.
Proof.
  intros Hne Hall. unfold array2List, array_literal.
  change (slice_1_m1 ("[" +++ String.concat ", " (map quoted ws) +++ "]"))
    with (drop_last (String.concat ", " (map quoted ws) +++ "]")).
  rewrite drop_last_app, re_sub_join by assumption.
  now apply split_join.
Qed.

(** When lines 1117 and 1118 of the text each hold, after thirteen
    characters of any kind, the array literal of a non-empty list of words
    that contain no double quote, whitespace or comma, the extraction returns
    exactly those words, in order: answers from line 1117, the word list
    from line 1118. *)
Theorem extract_round_trip (text pa pw : string)
  (answers wordlist : list string) :
  String.length pa = literal_offset ->
  String.length pw = literal_offset ->
  nth_error (split newline text) answers_line
  = Some (pa +++ array_literal answers) ->
  nth_error (split newline text) wordlist_line
  = Some (pw +++ array_literal wordlist) ->
  answers <> [] -> wordlist <> [] ->
  Forall (fun w => clean w = true) answers ->
  Forall (fun w => clean w = true) wordlist ->
  extract text = Extracted answers wordlist.
Proof.
  intros Hpa Hpw Ha Hw Hna Hnw Hca Hcw.
  unfold extract. rewrite Ha, Hw, <- Hpa at 1. rewrite <- Hpw.
  rewrite !slice_from_app.
  now rewrite !array2List_literal.
Qed.

(** The sample text: three answers on line 1117, two words on line 1118. *)
Lemma extract_round_trip_sample :
  extract sample_text
  = Extracted ["cigar"; "rebut"; "sissy"] ["aahed"; "aalii"].
Proof.
  apply (extract_round_trip sample_text "    var La = " "    var La = ");
    try (vm_compute; reflexivity); try discriminate;
    repeat constructor.
Defined.

Lemma all_chars_split (test : ascii -> bool) (sep : ascii) (s : string) :
  all_chars test s = true ->
  Forall (fun w => all_chars test w = true) (split sep s).
Proof.
  induction s as [|c s IH]; simpl; intros H.
  - now repeat constructor.
  - apply andb_prop in H as [Hc Hs]. specialize (IH Hs).
    destruct (Ascii.eqb c sep); [now constructor|].
    destruct (split sep s) as [|h t]; inversion IH; subst;
      constructor; simpl; trivial.
    + now rewrite Hc.
    + now rewrite Hc.
Qed.

Lemma split_no_sep (sep : ascii) (s : string) :
  Forall (fun w => all_chars (fun c => negb (Ascii.eqb c sep)) w = true)
         (split sep s).
Proof.
  induction s as [|c s IH]; simpl.
  - now repeat constructor.
  - destruct (Ascii.eqb c sep) eqn:E; [now constructor|].
    destruct (split sep s) as [|h t]; inversion IH; subst;
      constructor; simpl; trivial; now rewrite E.
Qed.

Lemma re_sub_no_quote_space (s : string) :
  all_chars (fun c => negb (is_quote c || is_space c)) (re_sub s) = true.
Proof.
  induction s as [|c s IH]; simpl; [reflexivity|].
  destruct (is_quote c || is_space c) eqn:E; simpl; [assumption|].
  now rewrite E.
Qed.

Lemma all_chars_both (t1 t2 : ascii -> bool) (w : string) :
  all_chars t1 w = true -> all_chars t2 w = true ->
  all_chars (fun c => t1 c && t2 c) w = true.
Proof.
  induction w as [|c w IH]; simpl; [reflexivity|].
  intros H1 H2. apply andb_prop in H1 as [-> H1].
  apply andb_prop in H2 as [-> H2]. now rewrite IH.
Qed.

(** Whatever the input, no word that [array2List] returns holds a double
    quote, a whitespace character or a comma. *)
Theorem array2List_words_clean (arr : string) :
  Forall (fun w => clean w = true) (array2List arr).
Proof.
  unfold array2List.
  pose proof (all_chars_split _ comma _
                (re_sub_no_quote_space (slice_1_m1 arr))) as H1.
  pose proof (split_no_sep comma (re_sub (slice_1_m1 arr))) as H2.
  rewrite Forall_forall in *. intros w Hw.
  apply (all_chars_both _ _ w (H1 w Hw) (H2 w Hw)).
Qed.

Lemma split_length (sep : ascii) (s : string) :
  List.length (split sep s) = S (count_char sep s).
Proof.
  induction s as [|c s IH]; simpl; [reflexivity|].
  destruct (Ascii.eqb c sep); simpl; [now rewrite IH|].
  destruct (split sep s); simpl in *; lia.
Qed.

Lemma re_sub_commas (s : string) :
  count_char comma (re_sub s) = count_char comma s.
Proof.
  induction s as [|c s IH]; simpl; [reflexivity|].
  destruct (Ascii.eqb c comma) eqn:E.
  - apply Ascii.eqb_eq in E. subst. simpl. now rewrite IH.
  - destruct (is_quote c || is_space c); simpl; [assumption|].
    now rewrite E, IH.
Qed.

(** [array2List] returns one word more than there are commas between the
    first and the last character of its input: never an empty list, and one
    empty word for a literal with nothing between its brackets. *)
Theorem array2List_length (arr : string) :
  List.length (array2List arr) = S (count_char comma (slice_1_m1 arr)).
Proof. unfold array2List. now rewrite split_length, re_sub_commas. Qed.

End ExtractorMore.

(** ** More on the frequency client *)

Module ClientMore.

Import Client ClientFacts.

Section Network.

Variable requests_get : string -> params -> nat -> outcome.
Variable u : string.
Variable p : params.
Variable wait : nat.

#[local] Abbreviation retries := (Client.retries u p wait).
#[local] Abbreviation before := (rate_limited_before requests_get u p).

Lemma retries_snoc (trace : list event) (d : nat) :
  (trace ++ [Sleep wait; Get u p]) ++ retries d = trace ++ retries (S d).
Proof. now rewrite <- app_assoc. Qed.

Lemma before_S (m : nat) (res : response) :
  before m -> requests_get u p m = Response res ->
  status_code res = tooManyReqsCode -> before (S m).
Proof.
  intros Hb Hm Hs i Hi. destruct (Nat.eq_dec i m) as [->|Hne]; [eauto|].
  apply Hb. lia.
Qed.

(** The loop from the inside: [m] is the index of the last call, which gave
    [res]. *)
Lemma while_429_returned_inv (fuel : nat) :
  forall m res trace res' trace',
    before m -> requests_get u p m = Response res ->
    while_429 requests_get u p wait fuel (S m) res trace
    = Returned res' trace' ->
    exists k, m <= k <= m + fuel /\
              first_answer requests_get u p k res' /\
              trace' = trace ++ retries (k - m).
Proof.
  induction fuel as [|fuel IH]; intros m res trace res' trace' Hb Hm; simpl.
  - destruct (status_code res =? tooManyReqsCode) eqn:E; [discriminate|].
    intros [= <- <-]. apply Nat.eqb_neq in E. exists m.
    rewrite Nat.sub_diag. unfold retries, Client.retries. simpl.
    rewrite app_nil_r. repeat split; trivial; lia.
  - destruct (status_code res =? tooManyReqsCode) eqn:E.
    + apply Nat.eqb_eq in E.
      destruct (requests_get u p (S m)) as [r|] eqn:Er; [|discriminate].
      intros H. apply IH in H as [k [Hk [Hfirst ->]]]; trivial.
      * exists k. split; [lia|]. split; [assumption|].
        rewrite retries_snoc. do 2 f_equal. lia.
      * now apply (before_S m res).
    + intros [= <- <-]. apply Nat.eqb_neq in E. exists m.
      rewrite Nat.sub_diag. unfold retries, Client.retries. simpl.
      rewrite app_nil_r. repeat split; trivial; lia.
Qed.

Lemma while_429_raised_inv (fuel : nat) :
  forall m res trace trace',
    before m -> requests_get u p m = Response res ->
    while_429 requests_get u p wait fuel (S m) res trace = Raised trace' ->
    exists k, m < k <= m + fuel /\
              first_failure requests_get u p k /\
              trace' = trace ++ retries (k - m).
Proof.
  induction fuel as [|fuel IH]; intros m res trace trace' Hb Hm; simpl.
  - destruct (status_code res =? tooManyReqsCode); discriminate.
  - destruct (status_code res =? tooManyReqsCode) eqn:E; [|discriminate].
    apply Nat.eqb_eq in E.
    pose proof (before_S m res Hb Hm E) as HbS.
    destruct (requests_get u p (S m)) as [r|] eqn:Er.
    + intros H. apply IH in H as [k [Hk [Hfirst ->]]]; trivial.
      exists k. split; [lia|]. split; [assumption|].
      rewrite retries_snoc. do 2 f_equal. lia.
    + intros [= <-]. exists (S m). split; [lia|]. split; [now split|].
      replace (S m - m) with 1 by lia. reflexivity.
Qed.

Lemma while_429_returned (fuel : nat) :
  forall m res trace k res',
    requests_get u p m = Response res ->
    m <= k <= m + fuel ->
    first_answer requests_get u p k res' ->
    while_429 requests_get u p wait fuel (S m) res trace
    = Returned res' (trace ++ retries (k - m)).
Proof.
  induction fuel as [|fuel IH]; intros m res trace k res' Hm Hk Hfirst.
  - assert (k = m) by lia. subst k.
    destruct Hfirst as [_ [Hres Hs]]. rewrite Hm in Hres.
    injection Hres as ->. apply Nat.eqb_neq in Hs. simpl. rewrite Hs.
    rewrite Nat.sub_diag. unfold retries, Client.retries. simpl.
    now rewrite app_nil_r.
  - destruct (Nat.eq_dec k m) as [->|Hne].
    + destruct Hfirst as [_ [Hres Hs]]. rewrite Hm in Hres.
      injection Hres as ->. apply Nat.eqb_neq in Hs. simpl. rewrite Hs.
      rewrite Nat.sub_diag. unfold retries, Client.retries. simpl.
      now rewrite app_nil_r.
    + pose proof Hfirst as [Hb [Hres Hs]].
      destruct (Hb m) as [r [Hr Hrs]]; [lia|].
      rewrite Hm in Hr. injection Hr as <-.
      simpl. rewrite Hrs, Nat.eqb_refl.
      assert (Hnext : exists r', requests_get u p (S m) = Response r').
      { destruct (Nat.eq_dec k (S m)) as [->|Hk'].
        - eauto.
        - destruct (Hb (S m)) as [r' [Hr' _]]; [lia|]. eauto. }
      destruct Hnext as [r' Hr']. rewrite Hr'.
      assert (Hk' : S m <= k <= S m + fuel) by lia.
      rewrite (IH (S m) r' _ k res' Hr' Hk' Hfirst).
      rewrite retries_snoc. do 3 f_equal. lia.
Qed.

Lemma while_429_raised (fuel : nat) :
  forall m res trace k,
    requests_get u p m = Response res ->
    m < k <= m + fuel ->
    first_failure requests_get u p k ->
    while_429 requests_get u p wait fuel (S m) res trace
    = Raised (trace ++ retries (k - m)).
Proof.
  induction fuel as [|fuel IH]; intros m res trace k Hm Hk Hfail; [lia|].
  pose proof Hfail as [Hb Hexc].
  destruct (Hb m) as [r [Hr Hrs]]; [lia|].
  rewrite Hm in Hr. injection Hr as <-.
  simpl. rewrite Hrs, Nat.eqb_refl.
  destruct (Nat.eq_dec k (S m)) as [->|Hk'].
  - rewrite Hexc. replace (S m - m) with 1 by lia. reflexivity.
  - destruct (Hb (S m)) as [r' [Hr' _]]; [lia|]. rewrite Hr'.
    assert (Hk2 : S m < k <= S m + fuel) by lia.
    rewrite (IH (S m) r' _ k Hr' Hk2 Hfail).
    rewrite retries_snoc. do 3 f_equal. lia.
Qed.

Lemma before_0 : before 0.
Proof. intros i Hi. lia. Qed.

Lemma fetch_answer_inv (fuel : nat) (res : response) (trace : list event) :
  fetch requests_get u p wait fuel = Returned res trace ->
  exists k, k <= fuel /\ first_answer requests_get u p k res /\
            trace = Get u p :: retries k.
Proof.
  unfold fetch.
  destruct (requests_get u p 0) as [r0|] eqn:E0; [|discriminate].
  destruct (status_code r0 =? tooManyReqsCode) eqn:Es.
  - intros H. apply while_429_returned_inv in H as [k [Hk [Hf ->]]];
      trivial; [|apply before_0].
    exists k. rewrite Nat.sub_0_r. repeat split; trivial; try apply Hf. lia.
  - intros [= <- <-]. apply Nat.eqb_neq in Es. exists 0.
    repeat split; trivial; [lia|apply before_0].
Qed.

Lemma fetch_answer (fuel k : nat) (res : response) :
  k <= fuel -> first_answer requests_get u p k res ->
  fetch requests_get u p wait fuel = Returned res (Get u p :: retries k).
Proof.
  intros Hk Hfirst. unfold fetch.
  destruct k as [|k].
  - destruct Hfirst as [_ [-> Hs]]. apply Nat.eqb_neq in Hs. now rewrite Hs.
  - pose proof Hfirst as [Hb _].
    destruct (Hb 0) as [r0 [Hr0 Hs0]]; [lia|].
    rewrite Hr0, Hs0, Nat.eqb_refl.
    assert (Hk' : 0 <= S k <= 0 + fuel) by lia.
    rewrite (while_429_returned fuel 0 r0 [Get u p] (S k) res Hr0 Hk' Hfirst).
    now rewrite Nat.sub_0_r.
Qed.

Lemma fetch_failure_inv (fuel : nat) (trace : list event) :
  fetch requests_get u p wait fuel = Raised trace ->
  exists k, k <= fuel /\ first_failure requests_get u p k /\
            trace = Get u p :: retries k.
Proof.
  unfold fetch.
  destruct (requests_get u p 0) as [r0|] eqn:E0.
  - destruct (status_code r0 =? tooManyReqsCode) eqn:Es; [|discriminate].
    intros H. apply while_429_raised_inv in H as [k [Hk [Hf ->]]];
      trivial; [|apply before_0].
    exists k. rewrite Nat.sub_0_r. repeat split; trivial; try apply Hf. lia.
  - intros [= <-]. exists 0.
    repeat split; trivial; [lia|apply before_0].
Qed.

Lemma fetch_failure (fuel k : nat) :
  k <= fuel -> first_failure requests_get u p k ->
  fetch requests_get u p wait fuel = Raised (Get u p :: retries k).
Proof.
  intros Hk Hfail. unfold fetch.
  destruct k as [|k].
  - destruct Hfail as [_ ->]. reflexivity.
  - pose proof Hfail as [Hb _].
    destruct (Hb 0) as [r0 [Hr0 Hs0]]; [lia|].
    rewrite Hr0, Hs0, Nat.eqb_refl.
    assert (Hk' : 0 < S k <= 0 + fuel) by lia.
    rewrite (while_429_raised fuel 0 r0 [Get u p] (S k) Hr0 Hk' Hfail).
    now rewrite Nat.sub_0_r.
Qed.

(** On any network, exceptions included, [fetch] returns a response exactly
    when some call within the bound is the first to get a response that is no
    rate limit, every earlier call having got a rate-limit response: it then
    returns that response, never one with status 429, after a sleep of
    [wait] seconds before each further call. *)
Theorem fetch_returns_iff (fuel : nat) (res : response)
  (trace : list event) :
  fetch requests_get u p wait fuel = Returned res trace <->
  exists k, k <= fuel /\ first_answer requests_get u p k res /\
            trace = Get u p :: retries k.
Proof.
  split; [apply fetch_answer_inv|].
  intros [k [Hk [Hfirst ->]]]. now apply fetch_answer.
Qed.

End Network.

Section Lookup.

Variable requests_get : string -> params -> nat -> outcome.
Variable np_mean : json -> option np_float.

(** The lookup returns exactly when, within the bound, some request is the
    first to get a response that is no rate limit: its value is read off that
    response alone, and every request it made was for the word, the years
    1970 to 2019, corpus 26 and smoothing 0, with one second of sleep before
    each retry. *)
Theorem getNgramUsage_returns_iff (ngram : string) (fuel : nat)
  (occ : usage) (trace : list event) :
  getNgramUsage requests_get np_mean ngram fuel = Returned occ trace <->
  exists k res,
    k <= fuel /\
    first_answer requests_get url (args ngram) k res /\
    occ = handle np_mean res /\
    trace = Get url (args ngram) :: retries url (args ngram) 1 k.
Proof.
  split.
  - intros H. apply getNgramUsage_inv in H as [res [Hf ->]].
    apply fetch_answer_inv in Hf as [k [Hk [Hfirst ->]]].
    exists k, res. repeat split; trivial; apply Hfirst.
  - intros [k [res [Hk [Hfirst [-> ->]]]]].
    apply getNgramUsage_returned. now apply fetch_answer.
Qed.

(** The lookup raises exactly when, within the bound, a request raises
    after rate-limit responses only: the exception of [requests.get] is
    passed on, also from inside the retry loop. *)
Theorem getNgramUsage_raises_iff (ngram : string) (fuel : nat)
  (trace : list event) :
  getNgramUsage requests_get np_mean ngram fuel = Raised trace <->
  exists k,
    k <= fuel /\
    first_failure requests_get url (args ngram) k /\
    trace = Get url (args ngram) :: retries url (args ngram) 1 k.
Proof.
  unfold getNgramUsage. split.
  - destruct (fetch requests_get url (args ngram) 1 fuel) as [r t|t|] eqn:E;
      try discriminate.
    intros [= <-]. now apply fetch_failure_inv.
  - intros [k [Hk [Hfail ->]]]. now rewrite (fetch_failure _ _ _ _ fuel k).
Qed.

(** The response is turned into a value exactly when its body decodes to a
    list whose first entry is an object with a [timeseries] member on which
    [numpy.mean] succeeds; later entries of the list play no part, and every
    other body (an object, a string, a number, null, an empty list) gives the
    missing value. *)
Theorem handle_value_iff (res : response) (m : np_float) :
  handle np_mean res = Occurrence m <->
  exists members rest ts,
    json_body res = Some (JArr (JObj members :: rest)) /\
    dict_get "timeseries" members = Some ts /\
    np_mean ts = Some m.
Proof.
  unfold handle, try_mean, emptyValue. split.
  - destruct (json_body res) as [j|]; simpl; [|discriminate].
    destruct j as [| | |s|items|]; simpl; try discriminate.
    + destruct s; simpl; discriminate.
    + destruct items as [|first rest]; simpl; [discriminate|].
      destruct first as [| | | | |members]; simpl; try discriminate.
      destruct (dict_get "timeseries" members) as [ts|] eqn:Ets; simpl;
        [|discriminate].
      destruct (np_mean ts) as [x|] eqn:Em; [|discriminate].
      intros [= <-]. now exists members, rest, ts.
  - intros [members [rest [ts [-> [Hts Hm]]]]]. simpl.
    rewrite Hts. simpl. now rewrite Hm.
Qed.

End Lookup.

(** On the sample network the lookup of [abcde] returns at its third
    request. *)
Lemma getNgramUsage_returns_sample :
  exists k res,
    k <= 5 /\
    first_answer Example.requests_get url (args "abcde") k res /\
    Occurrence (Fin 0.1%Q) = handle np_mean_numbers res /\
    [Get url (args "abcde"); Sleep 1; Get url (args "abcde"); Sleep 1;
     Get url (args "abcde")]
    = Get url (args "abcde") :: retries url (args "abcde") 1 k.
Proof.
  apply (proj1 (getNgramUsage_returns_iff Example.requests_get
                  np_mean_numbers "abcde" 5 (Occurrence (Fin 0.1%Q)) _)).
  reflexivity.
Defined.

End ClientMore.

(** ** The overlap test *)

Module OverlapFacts.

Import Cache Overlap CacheFacts.

Lemma intersection_In (wordlist answers : list string) (w : string) :
  In w (intersection (set_of wordlist) (set_of answers)) <->
  In w wordlist /\ In w answers.
Proof.
  unfold intersection, set_of.
  rewrite filter_In, mem_In, !nodup_In. reflexivity.
Qed.

(** The number the overlap test prints counts the distinct words that are
    in both lists, and it is 0 exactly when no word of the word list is an
    answer. A word repeated inside one list does not change it. *)
Theorem overlap_zero_iff_disjoint (wordlist answers : list string) :
  NoDup (intersection (set_of wordlist) (set_of answers)) /\
  (forall w, In w (intersection (set_of wordlist) (set_of answers)) <->
             In w wordlist /\ In w answers) /\
  (overlap wordlist answers = 0 <->
   forall w, In w wordlist -> ~ In w answers).
Proof.
  split; [|split].
  - apply NoDup_filter, NoDup_nodup.
  - apply intersection_In.
  - unfold overlap. split.
    + intros H w Hw Ha.
      apply length_zero_iff_nil in H.
      assert (Hin : In w (intersection (set_of wordlist) (set_of answers)))
        by now apply intersection_In.
      rewrite H in Hin. contradiction.
    + intros H. apply length_zero_iff_nil.
      destruct (intersection (set_of wordlist) (set_of answers))
        as [|w l] eqn:E; [reflexivity|].
      assert (Hin : In w (intersection (set_of wordlist) (set_of answers)))
        by (rewrite E; now left).
      apply intersection_In in Hin as [Hw Ha]. now destruct (H w Hw).
Qed.

End OverlapFacts.

(** ** More on the cache writer *)

Module CacheMore.

Import Cache PandasFacts CacheFacts.

Section AnyLookup.

Variable lookup : string -> option usage.

Lemma append_loop_complete_iff (todo : list string) :
  forall f calls,
    complete (append_loop lookup todo f calls) = true <->
    forall w, In w todo -> lookup w <> None.
Proof.
  induction todo as [|w todo IH]; intros f calls; simpl.
  - split; [intros _ w []|reflexivity].
  - destruct (lookup w) as [occ|] eqn:E.
    + rewrite IH. split.
      * intros H x [<-|Hx]; [congruence|now apply H].
      * intros H x Hx. apply H. now right.
    + simpl. split; [discriminate|].
      intros H. exfalso. apply (H w); [now left|assumption].
Qed.

Lemma append_loop_complete_words (todo : list string) :
  forall f calls,
    complete (append_loop lookup todo f calls) = true ->
    exists extra,
      written (append_loop lookup todo f calls) = f ++ extra /\
      word_column extra = todo.
Proof.
  induction todo as [|w todo IH]; intros f calls; simpl.
  - intros _. exists []. now rewrite app_nil_r.
  - destruct (lookup w) as [occ|]; [|discriminate].
    intros H. destruct (IH _ _ H) as [extra [E M]].
    exists ((w, occ) :: extra). split.
    + now rewrite E, <- app_assoc.
    + unfold word_column in *. simpl. now rewrite M.
Qed.

(** When the word column of the record file is read back as written
    (lowercase words, none a missing-value token, one of them neither a
    number nor a boolean), the run reaches its end exactly when the lookup
    returns for every word of the universe that is not recorded yet. *)
Theorem run_completes_iff (wordlist answers : list string) (st : store) :
  Pandas.legible (word_column (create_if_absent st)) = true ->
  (complete (cache_step lookup wordlist answers st) = true <->
   forall w, In w (wordlist ++ answers) ->
             ~ In w (word_column (create_if_absent st)) ->
             lookup w <> None).
Proof.
  intros Hleg. unfold cache_step. rewrite append_loop_complete_iff. split.
  - intros H w Hw Hq. apply H. now apply wordsToQuery_legible_In.
  - intros H w Hw.
    apply wordsToQuery_legible_In in Hw as [Hw Hq]; [|assumption].
    now apply H.
Qed.

(** Over a universe of distinct words and a record file whose word column
    is read back as written, a run never gives a word a second record: a
    file whose words are distinct keeps distinct words, whether the run
    ends or is cut short by an exception. *)
Theorem cache_keeps_words_distinct (wordlist answers : list string)
  (st : store) :
  NoDup (wordlist ++ answers) ->
  Pandas.legible (word_column (create_if_absent st)) = true ->
  NoDup (word_column (create_if_absent st)) ->
  NoDup (word_column (written (cache_step lookup wordlist answers st))).
Proof.
  intros Hu Hleg Hf. unfold cache_step.
  destruct (append_loop_prefix lookup
              (wordsToQuery (wordlist ++ answers) (create_if_absent st))
              (create_if_absent st) []) as [extra [j [-> M]]].
  rewrite word_column_app, M.
  assert (Htodo : NoDup (wordsToQuery (wordlist ++ answers)
                           (create_if_absent st)))
    by now apply NoDup_filter.
  apply NoDup_app; trivial.
  - rewrite <- (firstn_skipn j) in Htodo.
    now apply NoDup_app_remove_r in Htodo.
  - intros w Hw Hin. apply firstn_In in Hin.
    apply wordsToQuery_legible_In in Hin as [_ Hnot]; [|assumption].
    now apply Hnot.
Qed.

End AnyLookup.

(** Once a run has reached its end, every word of the universe is recorded;
    when the word column of the file it leaves is read back as written, any
    further run, whatever its lookups would do, calls no lookup and leaves
    the file as it is. *)
Theorem completed_run_is_final (lookup : string -> option usage)
  (wordlist answers : list string) (st : store) :
  complete (cache_step lookup wordlist answers st) = true ->
  (forall w, In w (wordlist ++ answers) ->
     In w (word_column (written (cache_step lookup wordlist answers st))))
  /\
  (Pandas.legible
     (word_column (written (cache_step lookup wordlist answers st))) = true ->
   forall lookup',
     cache_step lookup' wordlist answers
       (Some (written (cache_step lookup wordlist answers st)))
     = {| written := written (cache_step lookup wordlist answers st);
          queried := [];
          complete := true |}).
Proof.
  intros Hc. unfold cache_step in Hc |- *.
  destruct (append_loop_complete_words lookup _ _ _ Hc) as [extra [E M]].
  rewrite E.
  assert (Hcov : forall w, In w (wordlist ++ answers) ->
                   In w (word_column (create_if_absent st ++ extra))).
  { intros w Hw. rewrite word_column_app, M. apply in_or_app.
    destruct (isQueried (queriedWords (create_if_absent st)) w) eqn:Eq.
    - right. apply filter_In. now split.
    - left. apply read_column_Text. unfold isQueried in Eq.
      apply negb_false_iff in Eq. now apply cell_is_In in Eq. }
  split; [assumption|].
  intros Hleg lookup'. simpl. rewrite (wordsToQuery_legible _ _ Hleg).
  rewrite filter_none; [reflexivity|].
  intros w Hw. apply negb_false_iff. apply mem_In. now apply Hcov.
Qed.

(** The worked example, run to its end and run again. *)
Lemma completed_run_sample :
  (forall w, In w (Example.wordlist ++ Example.answers) ->
     In w (word_column
             (written (cache_step Example.lookup Example.wordlist
                         Example.answers None))))
  /\
  (forall lookup',
     cache_step lookup' Example.wordlist Example.answers
       (Some (written (cache_step Example.lookup Example.wordlist
                         Example.answers None)))
     = {| written := written (cache_step Example.lookup Example.wordlist
                                Example.answers None);
          queried := [];
          complete := true |}).
Proof.
  destruct (completed_run_is_final Example.lookup Example.wordlist
              Example.answers None eq_refl) as [Hall Hnone].
  split; [exact Hall|exact (Hnone eq_refl)].
Defined.

(** The file of the worked example keeps distinct words when a run resumes
    from the interrupted state. *)
Lemma cache_keeps_words_distinct_sample :
  NoDup (word_column
           (written (cache_step Example.lookup Example.wordlist
                       Example.answers Example.stopped))).
Proof.
  apply (cache_keeps_words_distinct Example.lookup Example.wordlist
           Example.answers Example.stopped).
  - repeat constructor; simpl; intuition discriminate.
  - reflexivity.
  - repeat constructor; simpl; intuition discriminate.
Defined.

(** The run of the worked example resumed from the interrupted state. *)
Lemma run_completes_sample :
  complete (cache_step Example.lookup Example.wordlist Example.answers
              Example.stopped) = true <->
  forall w, In w (Example.wordlist ++ Example.answers) ->
            ~ In w (word_column (create_if_absent Example.stopped)) ->
            Example.lookup w <> None.
Proof.
  apply (run_completes_iff Example.lookup Example.wordlist Example.answers
           Example.stopped).
  reflexivity.
Defined.

End CacheMore.

(** ** More on the occurrence column and the answers *)

Module AssemblerMore.

Import Cache Assembler CacheFacts AssemblerFacts.

Lemma ascii_compare_refl (a : ascii) : Ascii.compare a a = Eq.
Proof. unfold Ascii.compare. apply N.compare_refl. Qed.

Lemma ascii_compare_lt_trans (a b c : ascii) :
  Ascii.compare a b = Lt -> Ascii.compare b c = Lt -> Ascii.compare a c = Lt.
Proof.
  unfold Ascii.compare. rewrite !N.compare_lt_iff. apply N.lt_trans.
Qed.

Lemma leb_trans (s1 s2 s3 : string) :
  String.leb s1 s2 = true -> String.leb s2 s3 = true ->
  String.leb s1 s3 = true.
Proof.
  unfold String.leb. revert s2 s3.
  induction s1 as [|a s1 IH]; intros [|b s2] [|c s3]; simpl; trivial;
    try discriminate.
  destruct (Ascii.compare a b) eqn:Eab; try discriminate;
    destruct (Ascii.compare b c) eqn:Ebc; try discriminate.
  - apply Ascii.compare_eq_iff in Eab, Ebc. subst.
    rewrite ascii_compare_refl. apply IH.
  - apply Ascii.compare_eq_iff in Eab. subst. now rewrite Ebc.
  - apply Ascii.compare_eq_iff in Ebc. subst. now rewrite Eab.
  - now rewrite (ascii_compare_lt_trans a b c Eab Ebc).
Qed.

Lemma replace_nan_not_null (x : np_float) : isnull (replace_nan x) = false.
Proof. now destruct x. Qed.

Lemma Permutation_filter {A : Type} (test : A -> bool) (l l' : list A) :
  Permutation l l' -> Permutation (filter test l) (filter test l').
Proof.
  induction 1 as [|x l l' _ IH|x y l|l l' l'' _ IH1 _ IH2]; simpl.
  - constructor.
  - destruct (test x); [now constructor|assumption].
  - destruct (test x), (test y); try reflexivity. apply perm_swap.
  - now transitivity (filter test l').
Qed.

(** After the replacement of cell 22 no occurrence is null, whatever the
    record file holds: the count that the cell prints is 0, for the frame and
    for the exported rows. *)
Theorem no_null_after_replace (answers : list string) (f : file) :
  null_count (map occurrence (frame answers f)) = 0 /\
  null_count (map occurrence (assemble answers f)) = 0.
Proof.
  assert (H : null_count (map occurrence (frame answers f)) = 0).
  { unfold null_count, frame, read_csv. rewrite !map_map. simpl.
    rewrite filter_none; [reflexivity|].
    intros x Hx. apply in_map_iff in Hx as [rec [<- _]].
    apply replace_nan_not_null. }
  split; [assumption|].
  unfold null_count, assemble in *.
  rewrite <- H. apply Permutation_length, Permutation_filter, Permutation_map.
  apply sort_values_perm.
Qed.

Lemma index_app_notin (w : string) (pre l : list string) :
  ~ In w pre ->
  index w (pre ++ l) = option_map (fun i => List.length pre + i) (index w l).
Proof.
  induction pre as [|a pre IH]; simpl; intros Hn.
  - now destruct (index w l).
  - destruct (String.eqb a w) eqn:E.
    + apply String.eqb_eq in E. subst. exfalso. apply Hn. now left.
    + rewrite IH by (intros H; apply Hn; now right).
      now destruct (index w l).
Qed.

(** In a list of distinct answers the day of each answer is its position. *)
Lemma day_of_positions (pre post : list string) :
  NoDup (pre ++ post) ->
  map (day_of (pre ++ post)) post
  = map Some (seq (List.length pre) (List.length post)).
Proof.
  revert pre. induction post as [|w post IH]; intros pre Hnd; [reflexivity|].
  simpl. f_equal.
  - unfold day_of.
    rewrite (proj2 (mem_In w (pre ++ w :: post)))
      by (apply in_or_app; right; now left).
    rewrite index_app_notin.
    + simpl. rewrite String.eqb_refl. simpl. f_equal. lia.
    + intros Hin. apply (NoDup_app_disjoint _ _ Hnd w Hin). now left.
  - replace (pre ++ w :: post) with ((pre ++ [w]) ++ post)
      by now rewrite <- app_assoc.
    rewrite IH.
    + rewrite length_app. simpl. now rewrite Nat.add_1_r.
    + now rewrite <- app_assoc.
Qed.

Lemma combine_map {A B : Type} (g : A -> B) (l : list A) :
  combine l (map g l) = map (fun x => (x, g x)) l.
Proof. induction l as [|x l IH]; simpl; [reflexivity|now rewrite IH]. Qed.

End AssemblerMore.

(** ** More on the exported dataset *)

Module DatasetMore.

Import Cache Dataset PandasFacts CacheFacts AssemblerFacts DatasetFacts.
Import AssemblerMore.

Lemma by_key_trans (a b c : row) : by_key a b -> by_key b c -> by_key a c.
Proof. unfold by_key. apply leb_trans. Qed.

Lemma sort_text_strongly_sorted (l : list row) :
  StronglySorted by_key (sort_text l).
Proof.
  apply Sorted_StronglySorted; [|apply sort_text_sorted].
  intros a b c. apply by_key_trans.
Qed.

Lemma StronglySorted_weaken {A : Type} (R S : A -> A -> Prop)
  (P : A -> Prop) (l : list A) :
  (forall a b, P a -> P b -> R a b -> S a b) ->
  Forall P l -> StronglySorted R l -> StronglySorted S l.
Proof.
  intros HRS. induction l as [|x l IH]; intros HP HS; [constructor|].
  apply StronglySorted_inv in HS as [HS HF].
  inversion HP as [|? ? Hx Hl]; subst.
  constructor; [now apply IH|].
  rewrite Forall_forall in *. intros y Hy. apply HRS; auto.
Qed.

Lemma StronglySorted_app {A : Type} (R : A -> A -> Prop) (l1 l2 : list A) :
  StronglySorted R l1 -> StronglySorted R l2 ->
  (forall a b, In a l1 -> In b l2 -> R a b) ->
  StronglySorted R (l1 ++ l2).
Proof.
  induction l1 as [|x l1 IH]; intros H1 H2 Hc; simpl; [assumption|].
  apply StronglySorted_inv in H1 as [H1 HF].
  constructor.
  - apply IH; trivial. intros a b Ha. apply Hc. now right.
  - apply Forall_app. split; [assumption|].
    apply Forall_forall. intros b Hb. apply Hc; [now left|assumption].
Qed.

Lemma export_order_key (a b : row) :
  has_word a = true -> has_word b = true -> by_key a b -> export_order a b.
Proof.
  unfold has_word, by_key, key, export_order.
  destruct (word a), (word b); trivial; discriminate.
Qed.

Lemma export_order_last (a b : row) : has_word b = false -> export_order a b.
Proof.
  unfold has_word, export_order.
  destruct (word a), (word b); trivial; discriminate.
Qed.

Lemma sort_text_In (l : list row) (r : row) : In r (sort_text l) <-> In r l.
Proof.
  split; apply Permutation_in;
    [apply sort_text_perm|symmetry; apply sort_text_perm].
Qed.

Lemma sort_values_all_words (rows : list row) :
  (forall r, In r rows -> has_word r = true) ->
  sort_values rows = sort_text rows.
Proof.
  intros H. unfold sort_values.
  rewrite filter_all by assumption.
  rewrite filter_none; [apply app_nil_r|].
  intros r Hr. now rewrite (H r Hr).
Qed.

(** The export is in the order of [sort_values('word')]: the rows that have
    a word in ascending order of their words, then the rows whose word was
    read as a missing value, which keep the order of the record file. *)
Theorem export_sorted_by_word (answers : list string) (f : file) :
  StronglySorted export_order (export answers f) /\
  filter (fun r => negb (has_word r)) (export answers f)
  = filter (fun r => negb (has_word r)) (frame answers f).
Proof.
  unfold export, sort_values. split.
  - apply StronglySorted_app.
    + apply (StronglySorted_weaken by_key export_order
               (fun r => has_word r = true)).
      * apply export_order_key.
      * apply Forall_forall. intros r Hr.
        apply sort_text_In, filter_In in Hr. apply Hr.
      * apply sort_text_strongly_sorted.
    + apply (StronglySorted_weaken (fun _ _ => True) export_order
               (fun r => has_word r = false)).
      * intros a b _ Hb _. now apply export_order_last.
      * apply Forall_forall. intros r Hr.
        apply filter_In in Hr as [_ Hr]. now apply negb_true_iff.
      * generalize (filter (fun r => negb (has_word r)) (frame answers f)).
        intros l. induction l; constructor; trivial.
        now apply Forall_forall.
    + intros a b _ Hb. apply export_order_last.
      apply filter_In in Hb as [_ Hb]. now apply negb_true_iff.
  - rewrite filter_app, filter_none.
    + simpl. apply filter_all. intros r Hr. now apply filter_In in Hr.
    + intros r Hr. apply sort_text_In, filter_In in Hr as [_ Hr].
      now rewrite Hr.
Qed.

(** For a record file none of whose words is a missing-value token, the
    export has one row for each record of the file, none dropped and none
    added, also for a word outside the lists: the word is the recorded word
    and the occurrence is the recorded value, with 0 for a null. *)
Theorem export_rows_match_records (answers : list string) (f : file) :
  forallb (fun w => negb (Pandas.is_na w)) (word_column f) = true ->
  Permutation
    (map (fun r => (word r, occurrence r)) (export answers f))
    (map (fun rec => (Pandas.Text (fst rec),
                      Assembler.replace_nan (Assembler.read_field (snd rec))))
         f).
Proof.
  intros Hna. unfold export. rewrite export_order_perm.
  unfold frame, read_csv. rewrite !map_map. simpl.
  apply Permutation_refl'. apply map_ext_in. intros rec Hrec.
  rewrite forallb_forall in Hna.
  assert (H : Pandas.is_na (fst rec) = false).
  { apply negb_true_iff, Hna. unfold word_column. now apply in_map. }
  now rewrite (read_text_as_written _ H).
Qed.

(** The rows of the worked example. *)
Lemma export_rows_match_records_sample :
  Permutation
    (map (fun r => (word r, occurrence r))
       (export Example.answers
          (written (cache_step Example.lookup Example.wordlist
                      Example.answers None))))
    [(Pandas.Text "abcde", Fin 0.1%Q); (Pandas.Text "bcdef", Fin 0%Q);
     (Pandas.Text "cdefg", Fin 0.2%Q)].
Proof.
  apply (export_rows_match_records Example.answers
           (written (cache_step Example.lookup Example.wordlist
                       Example.answers None))).
  reflexivity.
Defined.

(** Two sorted lists of rows with the same rows and no key twice are the
    same list. *)
Lemma sorted_rows_unique (l1 : list row) :
  forall l2,
    StronglySorted by_key l1 -> StronglySorted by_key l2 ->
    Permutation l1 l2 -> NoDup (map key l1) -> l1 = l2.
Proof.
  induction l1 as [|a l1 IH]; intros l2 S1 S2 P Hnd.
  - now apply Permutation_nil in P.
  - destruct l2 as [|b l2].
    + symmetry in P. now apply Permutation_nil in P.
    + apply StronglySorted_inv in S1 as [S1 F1].
      apply StronglySorted_inv in S2 as [S2 F2].
      inversion Hnd as [|? ? Ha Hrest]; subst.
      assert (Hab : a = b).
      { assert (Hina : In a (b :: l2))
          by (apply (Permutation_in a P); now left).
        assert (Hinb : In b (a :: l1))
          by (apply (Permutation_in b (Permutation_sym P)); now left).
        destruct Hina as [Hba|Hina]; [now symmetry|].
        destruct Hinb as [Hab|Hinb]; [assumption|].
        rewrite Forall_forall in F1, F2.
        pose proof (String.leb_antisym _ _ (F1 b Hinb) (F2 a Hina)) as Hw.
        exfalso. apply Ha. rewrite Hw. now apply in_map. }
      subst b. f_equal.
      apply IH; trivial. now apply Permutation_cons_inv in P.
Qed.

Lemma existsb_perm {A : Type} (test : A -> bool) (l l' : list A) :
  Permutation l l' -> existsb test l = existsb test l'.
Proof.
  induction 1 as [|x l l' _ IH|x y l|l l' l'' _ IH1 _ IH2]; simpl.
  - reflexivity.
  - now rewrite IH.
  - destruct (test x), (test y); reflexivity.
  - now transitivity (existsb test l').
Qed.

Lemma frame_perm (answers : list string) (f g : file) :
  Permutation f g -> Permutation (frame answers f) (frame answers g).
Proof.
  intros P. unfold frame.
  assert (Pd : Permutation (read_csv f) (read_csv g))
    by now apply Permutation_map.
  rewrite (existsb_perm _ _ _ Pd). now apply Permutation_map.
Qed.

Lemma frame_has_word (answers : list string) (f : file) :
  forallb (fun w => negb (Pandas.is_na w)) (word_column f) = true ->
  forall r, In r (frame answers f) -> has_word r = true.
Proof.
  intros H r Hr. unfold frame, read_csv in Hr. rewrite map_map in Hr.
  apply in_map_iff in Hr as [rec [<- Hrec]]. unfold has_word. simpl.
  rewrite forallb_forall in H.
  assert (Hna : Pandas.is_na (fst rec) = false).
  { apply negb_true_iff, H. unfold word_column. now apply in_map. }
  now rewrite (read_text_as_written _ Hna).
Qed.

Lemma frame_keys (answers : list string) (f : file) :
  forallb (fun w => negb (Pandas.is_na w)) (word_column f) = true ->
  map key (frame answers f) = word_column f.
Proof.
  intros H. unfold frame, read_csv, word_column. rewrite !map_map.
  apply map_ext_in. intros rec Hrec. unfold key. simpl.
  rewrite forallb_forall in H.
  assert (Hna : Pandas.is_na (fst rec) = false).
  { apply negb_true_iff, H. unfold word_column. now apply in_map. }
  now rewrite (read_text_as_written _ Hna).
Qed.

Lemma forallb_perm {A : Type} (test : A -> bool) (l l' : list A) :
  Permutation l l' -> forallb test l = true -> forallb test l' = true.
Proof.
  intros P H. rewrite forallb_forall in *. intros x Hx. apply H.
  now apply (Permutation_in x (Permutation_sym P)).
Qed.

(** The export does not depend on the order of the records in the file:
    two record files with the same records, none of whose words is a
    missing-value token and no word recorded twice, give the same exported
    rows in the same order. *)
Theorem export_ignores_record_order (answers : list string) (f g : file) :
  Permutation f g ->
  forallb (fun w => negb (Pandas.is_na w)) (word_column f) = true ->
  NoDup (word_column f) ->
  export answers f = export answers g.
Proof.
  intros P Hna Hnd.
  assert (Pw : Permutation (word_column f) (word_column g))
    by now apply Permutation_map.
  pose proof (forallb_perm _ _ _ Pw Hna) as Hna'.
  unfold export.
  rewrite (sort_values_all_words _ (frame_has_word answers f Hna)).
  rewrite (sort_values_all_words _ (frame_has_word answers g Hna')).
  apply sorted_rows_unique; try apply sort_text_strongly_sorted.
  - rewrite !sort_text_perm. now apply frame_perm.
  - apply (Permutation_NoDup (l := word_column f)); [|assumption].
    rewrite <- (frame_keys answers f Hna).
    symmetry. apply Permutation_map, sort_text_perm.
Qed.

(** The records of the worked example, written in the reverse order. *)
Lemma export_ignores_record_order_sample :
  export Example.answers
    (written (cache_step Example.lookup Example.wordlist Example.answers
                None))
  = export Example.answers
      (rev (written (cache_step Example.lookup Example.wordlist
                       Example.answers None))).
Proof.
  apply (export_ignores_record_order Example.answers).
  - apply Permutation_rev.
  - reflexivity.
  - repeat constructor; simpl; intuition discriminate.
Defined.


End DatasetMore.

(** ** More on the notebook end to end *)

Module PipelineMore.

Import Client Cache Dataset ClientFacts PandasFacts CacheFacts.
Import AssemblerFacts DatasetFacts ClientMore CacheMore AssemblerMore.
Import DatasetMore.

Lemma no_day_mem (answers : list string) (w : string) (x : np_float) :
  Pandas.is_na w = false ->
  no_day answers (Pandas.read_text w, x) = negb (mem w answers).
Proof.
  intros Hna. unfold no_day. simpl.
  rewrite (read_text_as_written w Hna). simpl.
  destruct (mem w answers) eqn:E.
  - apply mem_In in E.
    now destruct (day_of_answer answers w E) as [i [-> _]].
  - rewrite day_of_other; [reflexivity|].
    intros H. apply mem_In in H. congruence.
Qed.

(** The frame of a file that holds one record per word of a list of
    words, none of them a missing-value token. *)
Lemma frame_records (lookup : string -> usage) (answers ws : list string) :
  forallb Pandas.word_ok ws = true ->
  frame answers (records_of lookup ws)
  = map (fun w =>
           {| word := Pandas.Text w;
              occurrence :=
                Assembler.replace_nan (Assembler.read_field (lookup w));
              day := day_cell_of
                       (existsb (fun w => negb (mem w answers)) ws)
                       (Assembler.day_of answers w) |}) ws.
Proof.
  intros Hok. rewrite forallb_forall in Hok.
  unfold frame, read_csv, records_of. rewrite !map_map. simpl.
  assert (Hfl : existsb (no_day answers)
                  (map (fun w => (Pandas.read_text w,
                                  Assembler.read_field (lookup w))) ws)
                = existsb (fun w => negb (mem w answers)) ws).
  { clear - Hok. induction ws as [|w ws IH]; simpl; [reflexivity|].
    rewrite no_day_mem by (apply word_ok_not_na, Hok; now left).
    rewrite IH; [reflexivity|]. intros x Hx. apply Hok. now right. }
  rewrite Hfl. apply map_ext_in. intros w Hw.
  now rewrite (read_text_as_written w (word_ok_not_na w (Hok w Hw))).
Qed.

Lemma combine_maps {A B C : Type} (g : A -> B) (h : A -> C) (l : list A) :
  combine (map g l) (map h l) = map (fun x => (g x, h x)) l.
Proof. induction l as [|x l IH]; simpl; [reflexivity|now rewrite IH]. Qed.

Lemma some_outsider (answers wordlist : list string) :
  (forall w, In w wordlist -> ~ In w answers) ->
  existsb (fun w => negb (mem w answers)) (wordlist ++ answers)
  = match wordlist with [] => false | _ :: _ => true end.
Proof.
  intros Hdisj. rewrite existsb_app.
  assert (Ha : existsb (fun w => negb (mem w answers)) answers = false).
  { destruct (existsb _ answers) eqn:E; [|reflexivity].
    apply existsb_exists in E as [w [Hw E]].
    apply negb_true_iff in E. apply mem_In in Hw. congruence. }
  rewrite Ha, orb_false_r.
  destruct wordlist as [|w wordlist]; [reflexivity|]. simpl.
  destruct (mem w answers) eqn:E; [|reflexivity].
  apply mem_In in E. destruct (Hdisj w); [now left|assumption].
Qed.

Lemma days_positions (floats : bool) (answers : list string) :
  NoDup answers ->
  map (fun w => day_cell_of floats (Assembler.day_of answers w)) answers
  = map (if floats then FloatDay else IntDay) (seq 0 (List.length answers)).
Proof.
  intros Ha.
  rewrite <- (map_map (Assembler.day_of answers) (day_cell_of floats)).
  pose proof (day_of_positions [] answers Ha) as Hp. simpl in Hp.
  rewrite Hp, map_map. now destruct floats.
Qed.

(** After a run to the end over a universe of distinct words that is read
    back as written, the rows of the frame that have a day are those of the
    answers, in their order. *)
Lemma with_day_frame (lookup : string -> usage)
  (wordlist answers : list string) (st : store) :
  NoDup (wordlist ++ answers) ->
  (forall w, In w wordlist -> ~ In w answers) ->
  Pandas.legible_universe (wordlist ++ answers) = true ->
  reachable lookup wordlist answers st ->
  with_day (frame answers
              (written (cache_step (total lookup) wordlist answers st)))
  = map (fun w =>
           {| word := Pandas.Text w;
              occurrence :=
                Assembler.replace_nan (Assembler.read_field (lookup w));
              day := day_cell_of
                       match wordlist with [] => false | _ :: _ => true end
                       (Assembler.day_of answers w) |}) answers.
Proof.
  intros Hnd Hdisj Hleg Hr.
  rewrite (cache_step_from_reachable lookup wordlist answers Hleg Hnd st Hr).
  simpl written.
  rewrite (frame_records lookup answers (wordlist ++ answers)
             (legible_universe_ok _ Hleg)).
  rewrite (some_outsider answers wordlist Hdisj).
  rewrite map_app. unfold with_day. rewrite filter_app.
  rewrite filter_none, filter_all; simpl; [reflexivity| |].
  - intros r Hin. apply in_map_iff in Hin as [w [<- Hin]]. simpl.
    destruct (day_of_answer answers w Hin) as [i [-> _]]. simpl.
    now destruct wordlist.
  - intros r Hin. apply in_map_iff in Hin as [w [<- Hin]]. simpl.
    now rewrite (day_of_other answers w (Hdisj w Hin)).
Qed.

(** Over lists of lowercase words that are free of duplicates, share no
    word and are read back as written, after a run to the end (fresh or
    resumed), the rows of the frame that have a day are, in file order, the
    answers in their order with the days 0, 1, 2, ..., held as floats when
    the word list is not empty and as integers when it is; in the export
    every day from 0 to one less than the number of answers labels exactly
    one row. *)
Theorem days_number_the_answers (lookup : string -> usage)
  (wordlist answers : list string) (st : store) :
  NoDup wordlist -> NoDup answers ->
  (forall w, In w wordlist -> ~ In w answers) ->
  Pandas.legible_universe (wordlist ++ answers) = true ->
  reachable lookup wordlist answers st ->
  map (fun r => (word r, day r))
      (with_day (frame answers
                   (written (cache_step (total lookup) wordlist answers st))))
  = combine (map Pandas.Text answers)
      (map (match wordlist with [] => IntDay | _ :: _ => FloatDay end)
           (seq 0 (List.length answers))) /\
  Permutation
    (map day (with_day (pipeline (total lookup) wordlist answers st)))
    (map (match wordlist with [] => IntDay | _ :: _ => FloatDay end)
         (seq 0 (List.length answers))).
Proof.
  intros Hw Ha Hdisj Hleg Hr.
  assert (Hnd : NoDup (wordlist ++ answers)) by now apply NoDup_app.
  pose proof (with_day_frame lookup wordlist answers st Hnd Hdisj Hleg Hr)
    as Hcore.
  pose proof (days_positions
                match wordlist with [] => false | _ :: _ => true end
                answers Ha) as Hpos.
  assert (Hheld : (if match wordlist with [] => false | _ :: _ => true end
                   then FloatDay else IntDay)
                  = match wordlist with [] => IntDay | _ :: _ => FloatDay end)
    by now destruct wordlist.
  rewrite Hheld in Hpos. split.
  - rewrite Hcore, map_map. simpl. rewrite <- Hpos.
    now rewrite combine_maps.
  - rewrite <- Hpos.
    rewrite <- (map_map
                  (fun w =>
                     {| word := Pandas.Text w;
                        occurrence :=
                          Assembler.replace_nan
                            (Assembler.read_field (lookup w));
                        day := day_cell_of
                                 match wordlist with
                                 | [] => false
                                 | _ :: _ => true
                                 end (Assembler.day_of answers w) |}) day).
    rewrite <- Hcore. unfold pipeline, export.
    apply Permutation_map, Permutation_filter, export_order_perm.
Qed.

(** The worked example, resumed after its first append. *)
Lemma days_number_the_answers_sample :
  map (fun r => (word r, day r))
      (with_day (frame Example.answers
                   (written (cache_step (total Example.usage_of)
                               Example.wordlist Example.answers
                               Example.stopped))))
  = [(Pandas.Text "bcdef", FloatDay 0); (Pandas.Text "cdefg", FloatDay 1)] /\
  Permutation
    (map day (with_day (pipeline (total Example.usage_of) Example.wordlist
                          Example.answers Example.stopped)))
    [FloatDay 0; FloatDay 1].
Proof.
  apply (days_number_the_answers Example.usage_of Example.wordlist
           Example.answers Example.stopped).
  - repeat constructor; simpl; intuition discriminate.
  - repeat constructor; simpl; intuition discriminate.
  - simpl; intuition (subst; discriminate).
  - reflexivity.
  - apply reach_interrupted, reach_absent.
Defined.

(** With the client of cell 7 and a record file whose word column is read
    back as written: when for every word of the universe that is not
    recorded some request within the bound gets a response that is no rate
    limit, with no exception before it, the cache step runs to its end, and
    every record it appends holds the value read off the first such
    response for its word. *)
Theorem client_run_completes
  (requests_get : string -> params -> nat -> outcome)
  (np_mean : json -> option np_float) (fuel : nat)
  (wordlist answers : list string) (st : store) :
  Pandas.legible (word_column (create_if_absent st)) = true ->
  (forall w, In w (wordlist ++ answers) ->
             ~ In w (word_column (create_if_absent st)) ->
             exists k res, k <= fuel /\
                           first_answer requests_get url (args w) k res) ->
  complete (cache_step (client_lookup requests_get np_mean fuel)
              wordlist answers st) = true /\
  (forall w occ,
      In (w, occ)
         (written (cache_step (client_lookup requests_get np_mean fuel)
                     wordlist answers st)) ->
      In (w, occ) (create_if_absent st) \/
      exists k res, first_answer requests_get url (args w) k res /\
                    occ = handle np_mean res).
Proof.
  intros Hleg H. split.
  - unfold cache_step. apply append_loop_complete_iff.
    intros w Hw.
    apply wordsToQuery_legible_In in Hw as [Hw Hq]; [|assumption].
    destruct (H w Hw Hq) as [k [res [Hk Hfirst]]].
    unfold client_lookup.
    rewrite (getNgramUsage_returned requests_get np_mean w fuel res _
               (fetch_answer requests_get url (args w) 1 fuel k res
                  Hk Hfirst)).
    discriminate.
  - intros w occ Hin. unfold cache_step in Hin.
    apply Pipeline.client_records_looked_up in Hin as [Hin|[trace Hl]];
      [now left|].
    right. apply getNgramUsage_inv in Hl as [res [Hf ->]].
    apply fetch_answer_inv in Hf as [k [_ [Hfirst _]]]. eauto.
Qed.

Lemma sample_network_answers (w : string) :
  In w (Example.wordlist ++ Example.answers) ->
  exists k res, k <= 5 /\
                first_answer Example.requests_get url (args w) k res.
Proof.
  simpl. intros [<-|[<-|[<-|[]]]].
  - exists 2, (Example.abcde_responses 2). split; [lia|].
    split; [|split; [reflexivity|discriminate]].
    intros [|[|i]] Hi; try lia;
      exists Example.rate_limited; now split.
  - exists 0, (Example.answered (JArr [])). split; [lia|].
    split; [|split; [reflexivity|discriminate]].
    intros i Hi. lia.
  - exists 0, (Example.answered (Example.series "cdefg" [0.2%Q])).
    split; [lia|].
    split; [|split; [reflexivity|discriminate]].
    intros i Hi. lia.
Qed.

(** The worked example on the sample network runs to its end. *)
Lemma client_run_completes_sample :
  complete (cache_step Example.lookup Example.wordlist Example.answers None)
  = true.
Proof.
  apply (proj1 (client_run_completes Example.requests_get np_mean_numbers 5
                  Example.wordlist Example.answers None eq_refl
                  (fun w Hw _ => sample_network_answers w Hw))).
Defined.

(** What cell 17 prints after a run to the end, fresh or resumed, over a
    universe of distinct lowercase words that is read back as written: the
    number of rows is the size of the word list plus the size of the
    answers, and the number of null rows is the number of words whose lookup
    gave the missing value or nan. *)
Theorem row_counts_after_run (lookup : string -> usage)
  (wordlist answers : list string) (st : store) :
  NoDup (wordlist ++ answers) ->
  Pandas.legible_universe (wordlist ++ answers) = true ->
  reachable lookup wordlist answers st ->
  List.length
    (read_csv (written (cache_step (total lookup) wordlist answers st)))
  = List.length wordlist + List.length answers /\
  Assembler.null_count
    (map snd
       (read_csv (written (cache_step (total lookup) wordlist answers st))))
  = List.length
      (filter (fun w => Assembler.isnull (Assembler.read_field (lookup w)))
              (wordlist ++ answers)).
Proof.
  intros Hnd Hleg Hr.
  rewrite (cache_step_from_reachable lookup wordlist answers Hleg Hnd st Hr).
  simpl. unfold read_csv, records_of, Assembler.null_count.
  rewrite !map_map. simpl. split.
  - now rewrite length_map, length_app.
  - generalize (wordlist ++ answers). intros l.
    induction l as [|w l IH]; simpl; [reflexivity|].
    destruct (Assembler.isnull (Assembler.read_field (lookup w))); simpl;
      now rewrite IH.
Qed.

(** The worked example, resumed after its first append: three rows, one of
    them null. *)
Lemma row_counts_sample :
  List.length
    (read_csv (written (cache_step (total Example.usage_of)
                          Example.wordlist Example.answers
                          Example.stopped)))
  = List.length Example.wordlist + List.length Example.answers /\
  Assembler.null_count
    (map snd
       (read_csv (written (cache_step (total Example.usage_of)
                             Example.wordlist Example.answers
                             Example.stopped))))
  = List.length
      (filter (fun w => Assembler.isnull
                          (Assembler.read_field (Example.usage_of w)))
              (Example.wordlist ++ Example.answers)).
Proof.
  apply (row_counts_after_run Example.usage_of Example.wordlist
           Example.answers Example.stopped).
  - repeat constructor; simpl; intuition discriminate.
  - reflexivity.
  - apply reach_interrupted, reach_absent.
Defined.

End PipelineMore.
